(** * SPV simulator: Merkle tree, inclusion proofs and their verification

    A shallow embedding of [backend.py]: the double SHA-256 fingerprint,
    [Transaction], [MerkleTree] (with [_build_tree_levels] and [get_proof]),
    [Block] and [SPVClient.verify_transaction].

    Python lists are mutable objects: [_build_tree_levels] appends to the very
    list it is handed, and that list is stored both as [self.txids] and as
    level 0 of [self.tree_levels].  Lists of fingerprints therefore live in a
    heap and are named by their location. *)

From Stdlib Require Import ZArith Lia.
From Stdlib.Strings Require Import String Ascii Byte.
From stdpp Require Import base list strings.

(** ** hashlib.sha256

    [backend.py] imports SHA-256 from the Python standard library.  It is
    written out here (FIPS 180-4) on 32-bit words held in [Z], so that the
    embedding computes the fingerprints the program computes. *)
Module SHA256.

Local Open Scope Z_scope.

Definition w32 (x : Z) : Z := x mod 2 ^ 32.

Definition add32 (x y : Z) : Z := w32 (x + y).

Definition rotr (n x : Z) : Z :=
  Z.lor (Z.shiftr x n) (w32 (Z.shiftl x (32 - n))).

Definition Ch (x y z : Z) : Z :=
  Z.lxor (Z.land x y) (Z.land (Z.lxor x (Z.ones 32)) z).

Definition Maj (x y z : Z) : Z :=
  Z.lxor (Z.lxor (Z.land x y) (Z.land x z)) (Z.land y z).

Definition Sigma0 (x : Z) : Z := Z.lxor (Z.lxor (rotr 2 x) (rotr 13 x)) (rotr 22 x).
Definition Sigma1 (x : Z) : Z := Z.lxor (Z.lxor (rotr 6 x) (rotr 11 x)) (rotr 25 x).
Definition sigma0 (x : Z) : Z := Z.lxor (Z.lxor (rotr 7 x) (rotr 18 x)) (Z.shiftr x 3).
Definition sigma1 (x : Z) : Z := Z.lxor (Z.lxor (rotr 17 x) (rotr 19 x)) (Z.shiftr x 10).

(** The first 64 primes; the constants of the standard are the leading 32
    fractional bits of their square and cube roots. *)
Definition primes : list Z :=
  [2; 3; 5; 7; 11; 13; 17; 19; 23; 29; 31; 37; 41; 43; 47; 53;
   59; 61; 67; 71; 73; 79; 83; 89; 97; 101; 103; 107; 109; 113; 127; 131;
   137; 139; 149; 151; 157; 163; 167; 173; 179; 181; 191; 193; 197; 199; 211; 223;
   227; 229; 233; 239; 241; 251; 257; 263; 269; 271; 277; 281; 283; 293; 307; 311].

(** Integer cube root, one bit at a time from bit [n - 1] down. *)
Fixpoint cbrt_bits (n : nat) (x r : Z) : Z :=
  match n with
  | O => r
  | S n' =>
      let c := r + 2 ^ Z.of_nat n' in
      cbrt_bits n' x (if c * c * c <=? x then c else r)
  end.

Definition frac_sqrt32 (p : Z) : Z := w32 (Z.sqrt (p * 2 ^ 64)).
Definition frac_cbrt32 (p : Z) : Z := w32 (cbrt_bits 36 (p * 2 ^ 96) 0).

Definition H0 : list Z := Eval vm_compute in map frac_sqrt32 (take 8 primes).
Definition K : list Z := Eval vm_compute in map frac_cbrt32 primes.

(** Message padding: a 1 bit, zeros up to 56 mod 64 bytes, then the bit
    length on 8 bytes, big-endian. *)
Definition be_bytes (n : nat) (x : Z) : list Z :=
  map (fun i => Z.shiftr x (8 * Z.of_nat (n - 1 - i)) mod 256) (seq 0 n).

Definition pad (msg : list Z) : list Z :=
  let len := Z.of_nat (length msg) in
  let zeros := Z.to_nat ((55 - len) mod 64) in
  msg ++ [128] ++ replicate zeros 0 ++ be_bytes 8 (8 * len).

Fixpoint be_words (fuel : nat) (bs : list Z) : list Z :=
  match fuel, bs with
  | S fuel', b0 :: b1 :: b2 :: b3 :: rest =>
      (b0 * 2 ^ 24 + b1 * 2 ^ 16 + b2 * 2 ^ 8 + b3) :: be_words fuel' rest
  | _, _ => []
  end.

(** Message schedule, most recent word first. *)
Fixpoint schedule (n : nat) (w : list Z) : list Z :=
  match n with
  | O => w
  | S n' =>
      let x := add32 (add32 (sigma1 (nth 1 w 0)) (nth 6 w 0))
                     (add32 (sigma0 (nth 14 w 0)) (nth 15 w 0)) in
      schedule n' (x :: w)
  end.

Definition regs : Type := Z * Z * Z * Z * Z * Z * Z * Z.

Definition round (s : regs) (kw : Z * Z) : regs :=
  let '(a, b, c, d, e, f, g, h) := s in
  let t1 := add32 (add32 (add32 h (Sigma1 e)) (Ch e f g)) (add32 (fst kw) (snd kw)) in
  let t2 := add32 (Sigma0 a) (Maj a b c) in
  (add32 t1 t2, a, b, c, add32 d t1, e, f, g).

Definition compress (s : regs) (block : list Z) : regs :=
  let w := rev (schedule 48 (rev block)) in
  let '(a, b, c, d, e, f, g, h) := fold_left round (zip K w) s in
  let '(a0, b0, c0, d0, e0, f0, g0, h0) := s in
  (add32 a0 a, add32 b0 b, add32 c0 c, add32 d0 d,
   add32 e0 e, add32 f0 f, add32 g0 g, add32 h0 h).

Fixpoint blocks (fuel : nat) (ws : list Z) : list (list Z) :=
  match fuel with
  | O => []
  | S fuel' =>
      match ws with
      | [] => []
      | _ => take 16 ws :: blocks fuel' (drop 16 ws)
      end
  end.

Definition init_regs : regs :=
  match H0 with
  | [a; b; c; d; e; f; g; h] => (a, b, c, d, e, f, g, h)
  | _ => (0, 0, 0, 0, 0, 0, 0, 0)
  end.

Definition byte_of_Z (x : Z) : byte :=
  match Byte.of_N (Z.to_N x) with
  | Some b => b
  | None => x00
  end.

Definition Z_of_byte (b : byte) : Z := Z.of_N (Byte.to_N b).

(** [hashlib.sha256(data).digest()]: the 32 bytes of the digest. *)
Definition digest (data : list byte) : list byte :=
  let bs := pad (map Z_of_byte data) in
  let ws := be_words (length bs) bs in
  let '(a, b, c, d, e, f, g, h) :=
    fold_left compress (blocks (length ws) ws) init_regs in
  map byte_of_Z (flat_map (be_bytes 4) [a; b; c; d; e; f; g; h]).

End SHA256.

(** ** Python values: bytes, str, hex *)

(** [bytes] is a list of bytes.  [str] is a [string]; each character stands
    for the code point of its number (0 to 255).  Every fingerprint is such
    a text, and on such text [encode] refuses nothing.  Text in full, with
    the code points that [encode] refuses, is [Unicode.str] further down. *)
Inductive pydata : Type :=
  | PyBytes (b : list byte)
  | PyStr (s : string).

(** [s.encode('utf-8')] on code points below 256: one byte below 128, two
    bytes (110xxxxx 10xxxxxx) from 128 on.  [Unicode.encode] is the function
    on every text; the two agree (lemma [encode_code_points]). *)
Definition utf8_char (c : ascii) : list byte :=
  let n := Z.of_N (N_of_ascii c) in
  if (n <? 128)%Z then [SHA256.byte_of_Z n]
  else [SHA256.byte_of_Z (Z.lor 192 (Z.shiftr n 6));
        SHA256.byte_of_Z (Z.lor 128 (Z.land n 63))].

Fixpoint utf8_encode (s : string) : list byte :=
  match s with
  | EmptyString => []
  | String c s' => utf8_char c ++ utf8_encode s'
  end.

Definition hex_digit (n : Z) : ascii :=
  ascii_of_N (Z.to_N (if n <? 10 then 48 + n else 87 + n)%Z).

(** The lower-case hexadecimal text of a byte string, two digits a byte. *)
Fixpoint hex (bs : list byte) : string :=
  match bs with
  | [] => EmptyString
  | b :: bs' =>
      let n := SHA256.Z_of_byte b in
      String (hex_digit (n / 16)%Z) (String (hex_digit (n mod 16)%Z) (hex bs'))
  end.

(** [hashlib.sha256(data).hexdigest()] *)
Definition hexdigest (data : list byte) : string := hex (SHA256.digest data).

(** ** double_sha256 *)

Definition to_bytes (data : pydata) : list byte :=
  match data with
  | PyBytes b => b
  | PyStr s => utf8_encode s
  end.

(** [double_sha256] on bytes and on text of code points below 256, where
    [encode] cannot raise.  [Unicode.double_sha256] is the function on every
    argument; the two agree (lemma [double_sha256_agrees]). *)
Definition double_sha256 (data : pydata) : string :=
  let data := to_bytes data in
  let hash1 := SHA256.digest data in
  let hash2 := hexdigest hash1 in
  hash2.

(** ** The program state

    [heap] holds the Python lists of fingerprints, each named by its index;
    [hash_calls] counts the calls of [double_sha256] made so far (the program
    has no such counter: it is kept to state that a run did no hashing);
    [out] is what went through [SPVClient.log]. *)

(** Locations are indices into the heap. *)
Abbreviation loc := nat.

(** One entry of a proof: [(sibling_hash, side)], [side] being the text
    ['left'] or ['right']. *)
Definition proof_entry : Type := string * string.

(** The messages of [SPVClient.log], by their place in the source. *)
Inductive log_line : Type :=
  | LogHeaderStored                    (* "SPV Client: Downloaded and stored block header." *)
  | LogHeaderRoot (root : option string) (* "   > Header Merkle Root: {root}" *)
  | LogNoHeader                        (* "SPV Client: Error! No block header to verify against." *)
  | LogNoneProof                       (* "SPV Client: Error! Invalid proof received (None)." *)
  | LogStart (txid10 : string)         (* "SPV Client: Starting verification for TXID: {txid[:10]}..." *)
  | LogStep (step_num : nat) (side : string) (sibling10 : string)
                                       (* "   > Step {step_num}: Hashing with {side} sibling: {sibling_hash[:10]}..." *)
  | LogNewHash (hash10 : string)       (* "   > New calculated hash: {calculated_hash[:10]}..." *)
  | LogFinalRoot (calculated : string) (* "SPV Client: Final Calculated Root: {calculated_hash}" *)
  | LogExpectedRoot (root : option string) (* "SPV Client: Expected Header Root:  {target_root}" *)
  | LogSuccessMatch                    (* "SUCCESS: Calculated root matches header root!" *)
  | LogSuccessVerified                 (* "This transaction is verified as part of the block." *)
  | LogFailedMismatch                  (* "FAILED: Calculated root does NOT match header root." *)
  | LogFailedInvalid.                  (* "This transaction is INVALID or not in this block." *)

Record world : Type := World {
  heap : list (list string);
  hash_calls : nat;
  out : list log_line
}.

(** Python exceptions the code can meet, and the two ways the model itself
    can fail: a location outside the heap, a loop out of fuel. *)
Inductive exn : Type := IndexError | DanglingRef | OutOfFuel.

Inductive result (A : Type) : Type :=
  | Ok (a : A)
  | Raise (e : exn).
Arguments Ok {A} a.
Arguments Raise {A} e.

Definition M (A : Type) : Type := world -> result (A * world).

Definition ret {A} (a : A) : M A := fun w => Ok (a, w).

Definition raise {A} (e : exn) : M A := fun _ => Raise e.

Definition bind {A B} (m : M A) (k : A -> M B) : M B :=
  fun w => match m w with
           | Ok (a, w') => k a w'
           | Raise e => Raise e
           end.

Notation "x <- m ;; k" := (bind m (fun x => k))
  (at level 20, m at level 99, k at level 200, only parsing).
Notation "m ;; k" := (bind m (fun _ => k))
  (at level 100, k at level 200, right associativity, only parsing).

Definition set_heap (h : list (list string)) (w : world) : world :=
  World h (hash_calls w) (out w).

(** [[...]]: a new list object. *)
Definition new_list (v : list string) : M loc :=
  fun w => Ok (length (heap w), set_heap (heap w ++ [v]) w).

(** The present content of the list at [l]. *)
Definition read (l : loc) : M (list string) :=
  fun w => match heap w !! l with
           | Some v => Ok (v, w)
           | None => Raise DanglingRef
           end.

(** [l.append(x)], in place. *)
Definition list_append (l : loc) (x : string) : M unit :=
  fun w => match heap w !! l with
           | Some v => Ok (tt, set_heap (<[l := v ++ [x]]> (heap w)) w)
           | None => Raise DanglingRef
           end.

(** [len(l)] *)
Definition list_len (l : loc) : M nat :=
  v <- read l ;; ret (length v).

(** [l[i]] for [i >= 0]. *)
Definition list_get (l : loc) (i : nat) : M string :=
  v <- read l ;;
  match v !! i with
  | Some x => ret x
  | None => raise IndexError
  end.

(** [l[-1]] *)
Definition list_get_last (l : loc) : M string :=
  v <- read l ;;
  match last v with
  | Some x => ret x
  | None => raise IndexError
  end.

(** A call of [double_sha256], on bytes or on text of code points below
    256: there it returns, whatever the state ([Unicode.double_sha256] tells
    when it raises on other text). *)
Definition call_double_sha256 (data : pydata) : M string :=
  fun w => Ok (double_sha256 data, World (heap w) (S (hash_calls w)) (out w)).

(** [self.log(message)] *)
Definition log (message : log_line) : M unit :=
  fun w => Ok (tt, World (heap w) (hash_calls w) (out w ++ [message])).

(** ** Transaction *)

Record Transaction : Type := mkTransaction {
  data : pydata;
  txid : string
}.

Definition Transaction_init (data_str : pydata) : M Transaction :=
  h <- call_double_sha256 data_str ;;
  ret (mkTransaction data_str h).

(** ** MerkleTree *)

Record MerkleTree : Type := mkMerkleTree {
  transactions : list Transaction;
  txids : loc;
  tree_levels : list loc;
  root : option string
}.

(** [range(0, n, 2)] *)
Definition range_by_2 (n : nat) : list nat :=
  map (fun k => 2 * k) (seq 0 (Nat.div2 (S n))).

(** The [for i in range(0, len(current_level), 2)] loop. *)
Fixpoint pair_loop (current_level next_level : loc) (indices : list nat)
  : M unit :=
  match indices with
  | [] => ret tt
  | i :: indices' =>
      left_child <- list_get current_level i ;;
      right_child <- list_get current_level (i + 1) ;;
      parent_hash <- call_double_sha256 (PyStr (left_child ++ right_child)) ;;
      list_append next_level parent_hash ;;
      pair_loop current_level next_level indices'
  end.

(** The [while len(current_level) > 1] loop. *)
Fixpoint level_loop (fuel : nat) (levels : list loc) (current_level : loc)
  : M (list loc) :=
  match fuel with
  | O => raise OutOfFuel
  | S fuel' =>
      n <- list_len current_level ;;
      if 1 <? n then
        (if negb (n mod 2 =? 0) then
           x <- list_get_last current_level ;;
           list_append current_level x
         else ret tt) ;;
        next_level <- new_list [] ;;
        n' <- list_len current_level ;;
        pair_loop current_level next_level (range_by_2 n') ;;
        level_loop fuel' (levels ++ [next_level]) next_level
      else ret levels
  end.

Definition _build_tree_levels (leaves : loc) : M (list loc) :=
  n <- list_len leaves ;;
  if n =? 0 then ret []
  else level_loop (S n) [leaves] leaves.

Definition MerkleTree_init (transactions : list Transaction) : M MerkleTree :=
  txids <- new_list (map txid transactions) ;;
  tree_levels <- _build_tree_levels txids ;;
  root <- match last tree_levels with
          | Some top => x <- list_get top 0 ;; ret (Some x)
          | None => ret None
          end ;;
  ret (mkMerkleTree transactions txids tree_levels root).

(** [l.index(x)]: the first position of [x], [None] for [ValueError]. *)
Fixpoint list_index (x : string) (l : list string) : option nat :=
  match l with
  | [] => None
  | y :: l' => if decide (y = x) then Some 0 else S <$> list_index x l'
  end.

(** The [for level in range(len(self.tree_levels) - 1)] loop of [get_proof]. *)
Fixpoint proof_loop (tree_levels : list loc) (levels : list nat)
    (current_index : nat) (proof : list proof_entry) : M (list proof_entry) :=
  match levels with
  | [] => ret proof
  | level :: levels' =>
      match tree_levels !! level with
      | None => raise IndexError
      | Some current_level_list =>
          n <- list_len current_level_list ;;
          let is_odd_node := negb (n mod 2 =? 0) in
          if is_odd_node && (current_index =? n - 1) then
            proof_loop tree_levels levels' (current_index / 2) proof
          else if current_index mod 2 =? 0 then
            let sibling_index := current_index + 1 in
            s <- list_get current_level_list sibling_index ;;
            proof_loop tree_levels levels' (current_index / 2)
              (proof ++ [(s, "right"%string)])
          else
            let sibling_index := current_index - 1 in
            s <- list_get current_level_list sibling_index ;;
            proof_loop tree_levels levels' (current_index / 2)
              (proof ++ [(s, "left"%string)])
      end
  end.

(** [get_proof]: [None] is Python's [None], returned when the fingerprint is
    not in [self.txids]. *)
Definition get_proof (self : MerkleTree) (target_txid : string)
  : M (option (list proof_entry)) :=
  ids <- read (txids self) ;;
  match list_index target_txid ids with
  | None => ret None
  | Some current_index =>
      proof <- proof_loop (tree_levels self)
                 (seq 0 (length (tree_levels self) - 1)) current_index [] ;;
      ret (Some proof)
  end.

(** ** Block *)

(** The header: a dict with the one key ['merkle_root']. *)
Record Header : Type := mkHeader { merkle_root : option string }.

Record Block : Type := mkBlock {
  block_transactions : list Transaction;
  merkle_tree : MerkleTree;
  header : Header
}.

Definition Block_init (transactions : list Transaction) : M Block :=
  t <- MerkleTree_init transactions ;;
  ret (mkBlock transactions t (mkHeader (root t))).

(** ** SPVClient *)

Record SPVClient : Type := mkSPVClient { block_header : option Header }.

Definition SPVClient_init : SPVClient := mkSPVClient None.

Definition set_header (self : SPVClient) (header : Header) : M SPVClient :=
  let self := mkSPVClient (Some header) in
  log LogHeaderStored ;;
  log (LogHeaderRoot (merkle_root header)) ;;
  ret self.

(** The [for sibling_hash, side in proof] loop of [verify_transaction]. *)
Fixpoint verify_loop (proof : list proof_entry) (calculated_hash : string)
    (step_num : nat) : M string :=
  match proof with
  | [] => ret calculated_hash
  | (sibling_hash, side) :: proof' =>
      log (LogStep step_num side (substring 0 10 sibling_hash)) ;;
      let combined_data :=
        if decide (side = "right"%string)
        then (calculated_hash ++ sibling_hash)%string
        else (sibling_hash ++ calculated_hash)%string in
      calculated_hash <- call_double_sha256 (PyStr combined_data) ;;
      log (LogNewHash (substring 0 10 calculated_hash)) ;;
      verify_loop proof' calculated_hash (step_num + 1)
  end.

Definition verify_transaction (self : SPVClient) (txid : string)
    (proof : option (list proof_entry)) : M bool :=
  match block_header self with
  | None => log LogNoHeader ;; ret false
  | Some header =>
      match proof with
      | None => log LogNoneProof ;; ret false
      | Some proof =>
          log (LogStart (substring 0 10 txid)) ;;
          calculated_hash <- verify_loop proof txid 1 ;;
          log (LogFinalRoot calculated_hash) ;;
          let target_root := merkle_root header in
          log (LogExpectedRoot target_root) ;;
          if decide (Some calculated_hash = target_root) then
            log LogSuccessMatch ;; log LogSuccessVerified ;; ret true
          else
            log LogFailedMismatch ;; log LogFailedInvalid ;; ret false
      end
  end.

(** ** What a run leaves behind, as functions on lists

    These describe the content of the heap after [_build_tree_levels] and the
    value of a proof; the lemmas below relate them to the program. *)

(** The parent of an adjacent pair. *)
Definition parent (left_child right_child : string) : string :=
  double_sha256 (PyStr (left_child ++ right_child)).

Fixpoint pair_up (l : list string) : list string :=
  match l with
  | a :: b :: t => parent a b :: pair_up t
  | _ => []
  end.

(** A level after the odd-count test of the loop body. *)
Definition padded (l : list string) : list string :=
  if negb (length l mod 2 =? 0) then
    match last l with
    | Some x => l ++ [x]
    | None => l
    end
  else l.

(** The levels the loop leaves in the heap, bottom first, starting from a
    level that holds [l]. *)
Fixpoint stored_levels (fuel : nat) (l : list string) : list (list string) :=
  match fuel with
  | O => [l]
  | S fuel' =>
      if 1 <? length l then padded l :: stored_levels fuel' (pair_up (padded l))
      else [l]
  end.

(** The entry [get_proof] appends at a level of even length. *)
Definition sibling_entry (level : list string) (i : nat) : proof_entry :=
  if i mod 2 =? 0 then (nth (i + 1) level ""%string, "right"%string)
  else (nth (i - 1) level ""%string, "left"%string).

(** One entry for each level but the last. *)
Fixpoint path (levels : list (list string)) (i : nat) : list proof_entry :=
  match levels with
  | level :: (_ :: _) as above => sibling_entry level i :: path above (i / 2)
  | _ => []
  end.

(** One step of the verifier, and its fold over a proof. *)
Definition climb_step (acc : string) (e : proof_entry) : string :=
  if decide (e.2 = "right"%string)
  then double_sha256 (PyStr (acc ++ e.1))
  else double_sha256 (PyStr (e.1 ++ acc)).

Definition climb (proof : list proof_entry) (leaf : string) : string :=
  fold_left climb_step proof leaf.

(** A level as it is stored: padded once the loop body has run on it. *)
Definition stored (l : list string) : list string :=
  if 1 <? length l then padded l else l.

(** Stored levels linked bottom to top: every level below the top has an
    even, non-zero number of entries and the next one is its pairing-up, as
    stored; the top has one entry. *)
Inductive linked : list (list string) -> Prop :=
  | linked_top r : linked [[r]]
  | linked_cons level above :
      length level mod 2 = 0 ->
      0 < length level ->
      linked (stored (pair_up level) :: above) ->
      linked (level :: stored (pair_up level) :: above).

(** The levels of the tree built from the leaves [l]. *)
Definition tree_levels_of (l : list string) : list (list string) :=
  match l with
  | [] => []
  | _ => stored_levels (S (length l)) l
  end.

(** What [verify_loop] logs. *)
Fixpoint verify_log (proof : list proof_entry) (calculated_hash : string)
    (step_num : nat) : list log_line :=
  match proof with
  | [] => []
  | e :: proof' =>
      LogStep step_num e.2 (substring 0 10 e.1)
      :: LogNewHash (substring 0 10 (climb_step calculated_hash e))
      :: verify_log proof' (climb_step calculated_hash e) (step_num + 1)
  end.

(** The tree object [t] in heap [h] has the levels [levels]. *)
Record tree_at (h : list (list string)) (t : MerkleTree)
    (levels : list (list string)) : Prop := mk_tree_at {
  at_txids : h !! txids t = Some (hd [] levels);
  at_levels : Forall2 (fun l v => h !! l = Some v) (tree_levels t) levels;
  at_root : root t = last levels ≫= head
}.

(** The number of [double_sha256] calls of the loop. *)
Fixpoint build_hashes (fuel : nat) (l : list string) : nat :=
  match fuel with
  | O => 0
  | S fuel' =>
      if 1 <? length l
      then length (padded l) / 2 + build_hashes fuel' (pair_up (padded l))
      else 0
  end.

(** The heap after [MerkleTree(transactions)]: the lists of the tree are
    new, one after the other, and nothing that was there is touched. *)
Definition heap_after_init (h : list (list string)) (l : list string)
  : list (list string) :=
  h ++ match l with [] => [[]] | _ => tree_levels_of l end.

(** ** The verifier in the words of the specification

    Sides are LEFT and RIGHT; the accumulator starts at the leaf fingerprint
    and is folded over the proof from left to right; the outcome is success
    exactly when the final accumulator is the reference root. *)

Inductive Side : Type := LEFT | RIGHT.

Definition FingerprintFunction (text : string) : string :=
  double_sha256 (PyStr text).

Definition spec_step (acc : string) (entry : string * Side) : string :=
  match entry with
  | (sibling, RIGHT) => FingerprintFunction (acc ++ sibling)
  | (sibling, LEFT) => FingerprintFunction (sibling ++ acc)
  end.

Definition spec_verify (leafFingerprint : string) (proof : list (string * Side))
    (referenceRoot : string) : bool :=
  bool_decide (fold_left spec_step proof leafFingerprint = referenceRoot).

(** How the program writes a side. *)
Definition side_text (s : Side) : string :=
  match s with
  | LEFT => "left"
  | RIGHT => "right"
  end.

Definition proof_text (proof : list (string * Side)) : list proof_entry :=
  map (fun e => (e.1, side_text e.2)) proof.

(** The client that holds the header of a tree. *)
Definition client_of (t : MerkleTree) : SPVClient :=
  mkSPVClient (Some (mkHeader (root t))).

(** A record as [Transaction(data_str)] makes it. *)
Definition record (data_str : string) : Transaction :=
  mkTransaction (PyStr data_str) (double_sha256 (PyStr data_str)).

(** The state before anything has run. *)
Definition empty_world : world := World [] 0 [].

(** Three records, an odd number. *)
Definition records_abc : list Transaction :=
  [record "a"; record "b"; record "c"].

(** Five records: the level above the leaves holds three parents. *)
Definition records_abcde : list Transaction :=
  [record "a"; record "b"; record "c"; record "d"; record "e"].

(** The entries of the tree level [k], read in heap [h]. *)
Definition level_entries (h : list (list string)) (t : MerkleTree) (k : nat)
  : option (list string) :=
  tree_levels t !! k ≫= fun l => h !! l.

(** What padding appends to a level of the loop: the last entry once more,
    when the level holds an odd number of entries, more than one. *)
Definition padding (l : list string) : list string :=
  if (1 <? length l) && negb (length l mod 2 =? 0)
  then match last l with Some x => [x] | None => [] end
  else [].

(** ** Objects for the examples of the further properties *)

(** A tree object written by hand over three lists, the first of odd
    length: not one that [MerkleTree] builds. *)
Definition odd_tree : MerkleTree := mkMerkleTree [] 0 [0; 1; 2] (Some "r"%string).

Definition odd_world : world :=
  World [["a"; "b"; "c"]; ["p"; "q"]; ["r"]]%string 0 [].

(** A character of lower-case hexadecimal text: [0-9] or [a-f]. *)
Definition is_hex_digit (c : ascii) : bool :=
  let n := nat_of_ascii c in
  ((48 <=? n) && (n <=? 57)) || ((97 <=? n) && (n <=? 102)).

Fixpoint all_chars (P : ascii -> bool) (s : string) : bool :=
  match s with
  | EmptyString => true
  | String c s' => P c && all_chars P s'
  end.

(** * FullNode and the Streamlit front end

    [FullNode.get_merkle_proof] of [backend.py] prints to the standard output,
    and the functions of [streamlit_app.py] work on [st.session_state]: the
    state of the backend is extended with both.  The page itself (widgets,
    tabs, buttons) is not modelled, only the functions. *)

(** What [get_merkle_proof] prints. *)
Inductive print_line : Type :=
  | PrintRequest (txid10 : string)  (* "[FullNode] Received request for proof for TXID: {txid[:10]}..." *)
  | PrintProofFound (n : nat)       (* "[FullNode] Proof found. Sending {len(proof)} hashes." *)
  | PrintNotFound.                  (* "[FullNode] TXID not found in my block." *)

(** The messages of [log_message], by their place in the source; the lines
    of [verify_with_proof] are those of [SPVClient.verify_transaction]. *)
Inductive app_line : Type :=
  | MsgSetupPhase                   (* "--- [SETUP PHASE] ---" *)
  | MsgNoTransactions               (* "Error: No transactions entered." *)
  | MsgCreating (n : nat)           (* "Creating {len(tx_data_list)} Transaction objects..." *)
  | MsgBuilding                     (* "Creating Block and building Merkle Tree..." *)
  | MsgInitFullNode                 (* "Initializing Full Node with the new block..." *)
  | MsgNetworkSim                   (* "--- [NETWORK SIM: 'Must have 2'] ---" *)
  | MsgConnecting                   (* "SPV Client connecting to Full Node..." *)
  | MsgDownloading                  (* "SPV Client downloading block header..." *)
  | MsgHeaderRoot (root32 : string) (* "   > Header Merkle Root: {root[:32]}..." *)
  | MsgTreeStructure                (* "--- [MERKLE TREE STRUCTURE] ---" *)
  | MsgLevelLeaf (level_idx : nat)  (* "Level {level_idx} (LEAF NODES - Transactions):" *)
  | MsgLevelRoot (level_idx : nat)  (* "Level {level_idx} (ROOT NODE):" *)
  | MsgLevelInner (level_idx : nat) (* "Level {level_idx} (Intermediate Nodes):" *)
  | MsgNodeTx (idx : nat) (hash16 : string) (tx_data : pydata)
                                    (* "  [{idx}] {node_hash[:16]}... ({tx_data})" *)
  | MsgNode (idx : nat) (hash16 : string)
                                    (* "  [{idx}] {node_hash[:16]}..." *)
  | MsgMerkleRoot (root32 : string) (* "Merkle Root: {root[:32]}..." *)
  | MsgSetupComplete                (* "Setup complete. Ready to verify transactions." *)
  | MsgSeparator                    (* "==============================================" *)
  | MsgVerificationPhase            (* "--- [VERIFICATION PHASE] ---" *)
  | MsgTampering (tx_data : pydata) (* "[TEST]: Tampering TXID for '{tx.data}' to simulate fraud" *)
  | MsgNeedToVerify (tx_data : pydata)
                                    (* "SPV Client: I need to verify transaction: {display_name}" *)
  | MsgSendingRequest               (* "SPV Client: Sending request for Merkle Proof to Full Node..." *)
  | MsgProofSent                    (* "Full Node: Proof found. Sending proof back to SPV Client..." *)
  | MsgVerificationSim              (* "--- [VERIFICATION SIM: 'Must have 1'] ---" *)
  | MsgSPV (l : log_line).

Record FullNode : Type := mkFullNode { block : Block }.

(** [st.session_state.stats] *)
Record Stats : Type := mkStats {
  total_verifications : nat;
  successful_verifications : nat;
  failed_verifications : nat
}.

(** [st.session_state] *)
Record session_state : Type := mkSession {
  full_node : option FullNode;
  spv_client : SPVClient;
  st_transactions : list Transaction;
  log_messages : list app_line;
  stats : Stats
}.

(** The session as the script initialises it. *)
Definition initial_session : session_state :=
  mkSession None SPVClient_init [] [] (mkStats 0 0 0).

Record app_state : Type := mkApp {
  app_world : world;
  session : session_state;
  stdout : list print_line
}.

(** An exception of the backend, or the [TypeError] of subscripting [None]. *)
Inductive app_exn : Type :=
  | Exn (e : exn)
  | TypeError.

(** An exception leaves the session as it is at that point. *)
Inductive app_result (A : Type) : Type :=
  | Done (a : A) (s : app_state)
  | Failed (e : app_exn) (s : app_state).
Arguments Done {A} a s.
Arguments Failed {A} e s.

Definition App (A : Type) : Type := app_state -> app_result A.

#[export] Instance app_ret : MRet App := fun A a s => Done a s.

#[export] Instance app_bind : MBind App := fun A B k m s =>
  match m s with
  | Done a s' => k a s'
  | Failed e s' => Failed e s'
  end.

Definition app_raise {A} (e : app_exn) : App A := fun s => Failed e s.

(** A step of the backend.  The backend's exceptions carry no state: the
    state before the step is kept. *)
Definition lift {A} (m : M A) : App A :=
  fun s => match m (app_world s) with
           | Ok (a, w') => Done a (mkApp w' (session s) (stdout s))
           | Raise e => Failed (Exn e) s
           end.

Definition get_session : App session_state := fun s => Done (session s) s.

Definition put_session (ss : session_state) : App unit :=
  fun s => Done tt (mkApp (app_world s) ss (stdout s)).

(** [print(...)] *)
Definition print (line : print_line) : App unit :=
  fun s => Done tt (mkApp (app_world s) (session s) (stdout s ++ [line])).

(** ** FullNode.get_merkle_proof *)

Definition get_merkle_proof (self : FullNode) (txid : string)
  : App (option (list proof_entry)) :=
  print (PrintRequest (substring 0 10 txid)) ≫= fun _ =>
  proof ← lift (get_proof (merkle_tree (block self)) txid);
  match proof with
  | Some (e :: proof') => print (PrintProofFound (length (e :: proof')))
  | _ => print PrintNotFound
  end ≫= fun _ =>
  mret proof.

(** ** streamlit_app.py *)

Definition log_message (message : app_line) : App unit :=
  fun s =>
    let ss := session s in
    Done tt (mkApp (app_world s)
               (mkSession (full_node ss) (spv_client ss) (st_transactions ss)
                  (log_messages ss ++ [message]) (stats ss))
               (stdout s)).

(** [str.isspace] on a character below 256. *)
Definition is_space (c : ascii) : bool :=
  let n := nat_of_ascii c in
  ((9 <=? n) && (n <=? 13)) || ((28 <=? n) && (n <=? 32))
  || (n =? 133) || (n =? 160).

Fixpoint lstrip_chars (l : list ascii) : list ascii :=
  match l with
  | c :: l' => if is_space c then lstrip_chars l' else l
  | [] => []
  end.

(** [s.strip()] *)
Definition strip (s : string) : string :=
  string_of_list_ascii
    (rev (lstrip_chars (rev (lstrip_chars (list_ascii_of_string s))))).

(** [[Transaction(data.strip()) for data in tx_data_list if data.strip()]] *)
Fixpoint make_transactions (tx_data_list : list string) : M (list Transaction) :=
  match tx_data_list with
  | [] => ret []
  | data :: rest =>
      if decide (strip data = ""%string) then make_transactions rest
      else
        bind (Transaction_init (PyStr (strip data))) (fun tx =>
        bind (make_transactions rest) (fun txs =>
        ret (tx :: txs)))
  end.

(** [x[:32]] for a root that may be [None]. *)
Definition root_prefix (root : option string) : App string :=
  match root with
  | Some r => mret (substring 0 32 r)
  | None => app_raise TypeError
  end.

(** The [for idx, node_hash in enumerate(level)] loop. *)
Fixpoint print_nodes (level_idx : nat) (idx : nat) (level : list string)
  : App unit :=
  match level with
  | [] => mret tt
  | node_hash :: level' =>
      ss ← get_session;
      (if (level_idx =? 0) && (idx <? length (st_transactions ss)) then
         match st_transactions ss !! idx with
         | Some tx => log_message (MsgNodeTx idx (substring 0 16 node_hash) (data tx))
         | None => app_raise (Exn IndexError)
         end
       else log_message (MsgNode idx (substring 0 16 node_hash))) ≫= fun _ =>
      print_nodes level_idx (S idx) level'
  end.

(** The [for level_idx in range(num_levels)] loop. *)
Fixpoint print_levels (tree_levels : list nat) (num_levels : nat)
    (level_idxs : list nat) : App unit :=
  match level_idxs with
  | [] => mret tt
  | level_idx :: rest =>
      match tree_levels !! level_idx with
      | None => app_raise (Exn IndexError)
      | Some level =>
          log_message
            (if level_idx =? 0 then MsgLevelLeaf level_idx
             else if level_idx =? num_levels - 1 then MsgLevelRoot level_idx
             else MsgLevelInner level_idx) ≫= fun _ =>
          entries ← lift (read level);
          print_nodes level_idx 0 entries ≫= fun _ =>
          print_levels tree_levels num_levels rest
      end
  end.

Definition print_merkle_tree : App unit :=
  ss ← get_session;
  match full_node ss with
  | None => mret tt
  | Some fn =>
      log_message MsgTreeStructure ≫= fun _ =>
      let tree_levels := tree_levels (merkle_tree (block fn)) in
      match tree_levels with
      | [] => mret tt
      | _ =>
          let num_levels := length tree_levels in
          print_levels tree_levels num_levels (seq 0 num_levels) ≫= fun _ =>
          r ← root_prefix (root (merkle_tree (block fn)));
          log_message (MsgMerkleRoot r)
      end
  end.

Definition create_block (tx_data_list : list string) : App bool :=
  ss ← get_session;
  put_session (mkSession (full_node ss) (spv_client ss) (st_transactions ss)
                 [] (stats ss)) ≫= fun _ =>
  log_message MsgSetupPhase ≫= fun _ =>
  match tx_data_list with
  | [] => log_message MsgNoTransactions ≫= fun _ => mret false
  | _ =>
      log_message (MsgCreating (length tx_data_list)) ≫= fun _ =>
      transactions ← lift (make_transactions tx_data_list);
      log_message MsgBuilding ≫= fun _ =>
      block ← lift (Block_init transactions);
      log_message MsgInitFullNode ≫= fun _ =>
      ss ← get_session;
      put_session (mkSession (Some (mkFullNode block)) (spv_client ss)
                     transactions (log_messages ss) (stats ss)) ≫= fun _ =>
      log_message MsgNetworkSim ≫= fun _ =>
      log_message MsgConnecting ≫= fun _ =>
      log_message MsgDownloading ≫= fun _ =>
      ss ← get_session;
      put_session (mkSession (full_node ss) (mkSPVClient (Some (header block)))
                     (st_transactions ss) (log_messages ss) (stats ss)) ≫= fun _ =>
      log_message (MsgSPV LogHeaderStored) ≫= fun _ =>
      r ← root_prefix (merkle_root (header block));
      log_message (MsgHeaderRoot r) ≫= fun _ =>
      print_merkle_tree ≫= fun _ =>
      log_message MsgSetupComplete ≫= fun _ =>
      mret true
  end.

(** The loop of [verify_with_proof]. *)
Fixpoint app_verify_loop (proof : list proof_entry) (calculated_hash : string)
    (step_num : nat) : App string :=
  match proof with
  | [] => mret calculated_hash
  | (sibling_hash, side) :: proof' =>
      log_message (MsgSPV (LogStep step_num side (substring 0 10 sibling_hash))) ≫= fun _ =>
      let combined_data :=
        if decide (side = "right"%string)
        then (calculated_hash ++ sibling_hash)%string
        else (sibling_hash ++ calculated_hash)%string in
      calculated_hash ← lift (call_double_sha256 (PyStr combined_data));
      log_message (MsgSPV (LogNewHash (substring 0 10 calculated_hash))) ≫= fun _ =>
      app_verify_loop proof' calculated_hash (step_num + 1)
  end.

Definition verify_with_proof (txid : string) (proof : option (list proof_entry))
  : App bool :=
  ss ← get_session;
  match block_header (spv_client ss) with
  | None => log_message (MsgSPV LogNoHeader) ≫= fun _ => mret false
  | Some _ =>
      match proof with
      | None => log_message (MsgSPV LogNoneProof) ≫= fun _ => mret false
      | Some proof =>
          log_message (MsgSPV (LogStart (substring 0 10 txid))) ≫= fun _ =>
          calculated_hash ← app_verify_loop proof txid 1;
          log_message (MsgSPV (LogFinalRoot calculated_hash)) ≫= fun _ =>
          ss ← get_session;
          match block_header (spv_client ss) with
          | None => app_raise TypeError
          | Some header =>
              let target_root := merkle_root header in
              log_message (MsgSPV (LogExpectedRoot target_root)) ≫= fun _ =>
              if decide (Some calculated_hash = target_root) then
                log_message (MsgSPV LogSuccessMatch) ≫= fun _ =>
                log_message (MsgSPV LogSuccessVerified) ≫= fun _ =>
                mret true
              else
                log_message (MsgSPV LogFailedMismatch) ≫= fun _ =>
                log_message (MsgSPV LogFailedInvalid) ≫= fun _ =>
                mret false
          end
      end
  end.

(** [s[n:]] *)
Fixpoint string_from (n : nat) (s : string) : string :=
  match n, s with
  | S n', String _ s' => string_from n' s'
  | _, _ => s
  end.

(** [txid[:20] + "TAMPERED" + txid[28:]] *)
Definition tamper_txid (txid : string) : string :=
  (substring 0 20 txid ++ "TAMPERED" ++ string_from 28 txid)%string.

(** The second component of what [verify_transaction] returns. *)
Inductive display_text : Type :=
  | NoBlockCreatedYet                (* "No block created yet" *)
  | DisplayName (tx_data : pydata).  (* the data between double quotes *)

(** [verify_transaction] of [streamlit_app.py]. *)
Definition app_verify_transaction (tx_index : nat) (tamper : bool)
  : App (bool * display_text) :=
  ss ← get_session;
  match full_node ss, st_transactions ss with
  | None, _ => mret (false, NoBlockCreatedYet)
  | Some _, [] => mret (false, NoBlockCreatedYet)
  | Some fn, _ :: _ =>
      log_message MsgSeparator ≫= fun _ =>
      log_message MsgVerificationPhase ≫= fun _ =>
      match st_transactions ss !! tx_index with
      | None => app_raise (Exn IndexError)
      | Some tx =>
          let display_name := DisplayName (data tx) in
          (if tamper then
             log_message (MsgTampering (data tx)) ≫= fun _ =>
             mret (tamper_txid (txid tx))
           else mret (txid tx)) ≫= fun txid_to_verify =>
          log_message MsgNetworkSim ≫= fun _ =>
          log_message (MsgNeedToVerify (data tx)) ≫= fun _ =>
          log_message MsgSendingRequest ≫= fun _ =>
          proof ← get_merkle_proof fn (txid tx);
          log_message MsgProofSent ≫= fun _ =>
          log_message MsgVerificationSim ≫= fun _ =>
          result ← verify_with_proof txid_to_verify proof;
          ss ← get_session;
          let st := stats ss in
          put_session
            (mkSession (full_node ss) (spv_client ss) (st_transactions ss)
               (log_messages ss)
               (if (result : bool)
                then mkStats (total_verifications st + 1)
                       (successful_verifications st + 1) (failed_verifications st)
                else mkStats (total_verifications st + 1)
                       (successful_verifications st) (failed_verifications st + 1)))
            ≫= fun _ =>
          mret (result, display_name)
      end
  end.

(** What a verification returns, how many times it hashes and what it
    logs, for a client, a fingerprint and a proof. *)
Definition verify_outcome (c : SPVClient) (txid : string)
    (proof : option (list proof_entry)) : bool * nat * list log_line :=
  match block_header c, proof with
  | None, _ => (false, 0, [LogNoHeader])
  | Some _, None => (false, 0, [LogNoneProof])
  | Some hdr, Some proof =>
      let calculated_hash := climb proof txid in
      let ok := bool_decide (Some calculated_hash = merkle_root hdr) in
      (ok, length proof,
       LogStart (substring 0 10 txid)
       :: verify_log proof txid 1
       ++ [LogFinalRoot calculated_hash; LogExpectedRoot (merkle_root hdr)]
       ++ (if ok then [LogSuccessMatch; LogSuccessVerified]
           else [LogFailedMismatch; LogFailedInvalid]))
  end.

(** The state with [lines] more in [log_messages]. *)
Definition with_log (s : app_state) (lines : list app_line) : app_state :=
  let ss := session s in
  mkApp (app_world s)
    (mkSession (full_node ss) (spv_client ss) (st_transactions ss)
       (log_messages ss ++ lines) (stats ss))
    (stdout s).

(** The records that [create_block] makes of the lines entered: one for
    each line that is not blank, of its text stripped, in order. *)
Definition records_of (tx_data_list : list string) : list Transaction :=
  map (fun data => record (strip data))
      (filter (fun data => strip data <> ""%string) tx_data_list).

(** The statistics after one more verification with answer [result]. *)
Definition count_verification (st : Stats) (result : bool) : Stats :=
  if result
  then mkStats (total_verifications st + 1) (successful_verifications st + 1)
         (failed_verifications st)
  else mkStats (total_verifications st + 1) (successful_verifications st)
         (failed_verifications st + 1).

(** A session set up by hand: a block of one transaction whose tree is the
    single list at the start of the heap. *)
Definition one_leaf_block : Block :=
  mkBlock [mkTransaction (PyStr "x") "r"]
    (mkMerkleTree [mkTransaction (PyStr "x") "r"] 0 [0] (Some "r"%string))
    (mkHeader (Some "r"%string)).

Definition one_leaf_session : app_state :=
  mkApp (World [["r"%string]] 0 [])
    (mkSession (Some (mkFullNode one_leaf_block))
       (mkSPVClient (Some (mkHeader (Some "r"%string))))
       [mkTransaction (PyStr "x") "r"] [] (mkStats 0 0 0))
    [].

(** The state after the front end has hashed [n] times more and logged
    [lines]. *)
Definition after_verifying (s : app_state) (n : nat) (lines : list log_line)
  : app_state :=
  let ss := session s in
  mkApp (World (heap (app_world s)) (hash_calls (app_world s) + n)
           (out (app_world s)))
    (mkSession (full_node ss) (spv_client ss) (st_transactions ss)
       (log_messages ss ++ map MsgSPV lines) (stats ss))
    (stdout s).

(** ** Python str in full, and double_sha256 on every argument

    A [str] is a sequence of code points, numbers below 0x110000.  The lone
    surrogates, 0xD800 to 0xDFFF, are among them, and [encode('utf-8')]
    refuses them: it raises [UnicodeEncodeError], whose [start] is the
    position of the first one.  [double_sha256] above is the function on
    bytes and on text of code points below 256, where nothing is refused;
    here it is on every argument. *)
Module Unicode.

Definition str : Type := list N.

(** The argument of [double_sha256]: [bytes], or else text. *)
Inductive obj : Type :=
  | Bytes (b : list byte)
  | Str (s : str).

(** What a call comes to: a value, or the exception of [encode]. *)
Inductive outcome (A : Type) : Type :=
  | Return (a : A)
  | UnicodeEncodeError (start : nat).
Arguments Return {A} a.
Arguments UnicodeEncodeError {A} start.

Definition is_surrogate (c : N) : bool := ((0xD800 <=? c) && (c <=? 0xDFFF))%N.

Definition byte_of_N (n : N) : byte :=
  match Byte.of_N n with
  | Some b => b
  | None => x00
  end.

(** The bytes of one code point; [None] for a surrogate.  (A [str] holds
    no number from 0x110000 on: the last case is for 0x10000 to 0x10FFFF.) *)
Definition encode_char (c : N) : option (list byte) :=
  (if c <? 0x80 then Some [byte_of_N c]
   else if c <? 0x800 then
     Some [byte_of_N (0xC0 + c / 0x40); byte_of_N (0x80 + c mod 0x40)]
   else if is_surrogate c then None
   else if c <? 0x10000 then
     Some [byte_of_N (0xE0 + c / 0x1000);
           byte_of_N (0x80 + c / 0x40 mod 0x40);
           byte_of_N (0x80 + c mod 0x40)]
   else
     Some [byte_of_N (0xF0 + c / 0x40000);
           byte_of_N (0x80 + c / 0x1000 mod 0x40);
           byte_of_N (0x80 + c / 0x40 mod 0x40);
           byte_of_N (0x80 + c mod 0x40)])%N.

(** [s.encode('utf-8')], [s] starting at position [start] of the text. *)
Fixpoint encode_from (start : nat) (s : str) : outcome (list byte) :=
  match s with
  | [] => Return []
  | c :: s' =>
      match encode_char c with
      | None => UnicodeEncodeError start
      | Some bs =>
          match encode_from (S start) s' with
          | Return rest => Return (bs ++ rest)
          | UnicodeEncodeError i => UnicodeEncodeError i
          end
      end
  end.

Definition encode (s : str) : outcome (list byte) := encode_from 0 s.

(** [double_sha256] of [backend.py]. *)
Definition double_sha256 (data : obj) : outcome string :=
  match (match data with
         | Bytes b => Return b
         | Str s => encode s
         end) with
  | Return data =>
      let hash1 := SHA256.digest data in
      let hash2 := hexdigest hash1 in
      Return hash2
  | UnicodeEncodeError start => UnicodeEncodeError start
  end.

(** The text that a [string] stands for, and the argument that a [pydata]
    stands for. *)
Definition code_points (s : string) : str :=
  map N_of_ascii (list_ascii_of_string s).

Definition of_pydata (data : pydata) : obj :=
  match data with
  | PyBytes b => Bytes b
  | PyStr s => Str (code_points s)
  end.

End Unicode.

(** ** UTF-8 as the standard defines it

    The decoder of RFC 3629, written from its table: one byte below 0x80;
    two bytes for 0x80 to 0x7FF, three for 0x800 to 0xFFFF without the
    surrogates, four for 0x10000 to 0x10FFFF, each continuation byte being
    10xxxxxx; nothing else is UTF-8. *)
Definition continuation (b : byte) : option N :=
  let n := Byte.to_N b in
  if ((0x80 <=? n) && (n <? 0xC0))%N then Some (n - 0x80)%N else None.

Fixpoint utf8_decode (bs : list byte) : option (list N) :=
  match bs with
  | [] => Some []
  | b0 :: r0 =>
      let n0 := Byte.to_N b0 in
      if (n0 <? 0x80)%N then cons n0 <$> utf8_decode r0
      else if (n0 <? 0xC0)%N then None
      else if (n0 <? 0xE0)%N then
        match r0 with
        | b1 :: r1 =>
            match continuation b1 with
            | Some c1 =>
                let c := ((n0 - 0xC0) * 0x40 + c1)%N in
                if (0x80 <=? c)%N then cons c <$> utf8_decode r1 else None
            | None => None
            end
        | _ => None
        end
      else if (n0 <? 0xF0)%N then
        match r0 with
        | b1 :: b2 :: r2 =>
            match continuation b1, continuation b2 with
            | Some c1, Some c2 =>
                let c := ((n0 - 0xE0) * 0x1000 + c1 * 0x40 + c2)%N in
                if ((0x800 <=? c) && negb ((0xD800 <=? c) && (c <=? 0xDFFF)))%N
                then cons c <$> utf8_decode r2 else None
            | _, _ => None
            end
        | _ => None
        end
      else if (n0 <? 0xF8)%N then
        match r0 with
        | b1 :: b2 :: b3 :: r3 =>
            match continuation b1, continuation b2, continuation b3 with
            | Some c1, Some c2, Some c3 =>
                let c := ((n0 - 0xF0) * 0x40000 + c1 * 0x1000 + c2 * 0x40 + c3)%N in
                if ((0x10000 <=? c) && (c <? 0x110000))%N
                then cons c <$> utf8_decode r3 else None
            | _, _, _ => None
            end
        | _ => None
        end
      else None
  end.

(** * Theorems *)

Example sha256_abc :
  hexdigest (utf8_encode "abc") =
  "ba7816bf8f01cfea414140de5dae2223b00361a396177a9cb410ff61f20015ad"%string.
Proof. vm_compute. reflexivity. Qed.

Example sha256_empty :
  hexdigest [] =
  "e3b0c44298fc1c149afbf4c8996fb92427ae41e4649b934ca495991b7852b855"%string.
Proof. vm_compute. reflexivity. Qed.

(** A message of more than one block. *)
Example sha256_two_blocks :
  hexdigest (utf8_encode "abcdbcdecdefdefgefghfghighijhijkijkljklmklmnlmnomnopnopq") =
  "248d6a61d20638b8e5c026930c3e6039a33ce45964ff2167f6ecedd419db06c1"%string.
Proof. vm_compute. reflexivity. Qed.

Example utf8_two_bytes :
  utf8_encode (String (ascii_of_nat 233) EmptyString) = [xc3; xa9].
Proof. reflexivity. Qed.

Example double_sha256_a :
  double_sha256 (PyStr "a") =
  "bf5d3affb73efd2ec6c36ad3112dd933efed63c4e1cbffcfa88e2759c144f2d8"%string.
Proof. vm_compute. reflexivity. Qed.

(** The digest is never unfolded in what follows. *)
#[local] Opaque double_sha256.

(** ** Running the monad *)

Section Run.

Context {A B : Type}.

Lemma bind_ok (m : M A) (k : A -> M B) w a w' :
  m w = Ok (a, w') -> bind m k w = k a w'.
Proof. unfold bind. intros ->. reflexivity. Qed.

Lemma bind_ret (a : A) (k : A -> M B) w : bind (ret a) k w = k a w.
Proof. reflexivity. Qed.

End Run.

(** Run the first action of a sequence, given what it returns. *)
Tactic Notation "step_with" uconstr(H) := rewrite (bind_ok _ _ _ _ _ H).

Lemma read_ok l v w : heap w !! l = Some v -> read l w = Ok (v, w).
Proof. unfold read. intros ->. reflexivity. Qed.

Lemma list_len_ok l v w :
  heap w !! l = Some v -> list_len l w = Ok (length v, w).
Proof. intros Hl. unfold list_len. rewrite (bind_ok _ _ _ _ _ (read_ok _ _ _ Hl)). reflexivity. Qed.

Lemma list_get_ok l v i x w :
  heap w !! l = Some v -> v !! i = Some x -> list_get l i w = Ok (x, w).
Proof.
  intros Hl Hi. unfold list_get.
  rewrite (bind_ok _ _ _ _ _ (read_ok _ _ _ Hl)), Hi. reflexivity.
Qed.

Lemma list_get_last_ok l v x w :
  heap w !! l = Some v -> last v = Some x -> list_get_last l w = Ok (x, w).
Proof.
  intros Hl Hx. unfold list_get_last.
  rewrite (bind_ok _ _ _ _ _ (read_ok _ _ _ Hl)), Hx. reflexivity.
Qed.

Lemma list_append_ok l v x w :
  heap w !! l = Some v ->
  list_append l x w = Ok (tt, set_heap (<[l := v ++ [x]]> (heap w)) w).
Proof. unfold list_append. intros ->. reflexivity. Qed.

(** ** Pairing up a level *)

Lemma pair_up_length l : length (pair_up l) = length l / 2.
Proof.
  induction l as [l IH] using (induction_ltof1 _ (@length string)).
  unfold ltof in IH.
  destruct l as [|a [|b t]]; [reflexivity | reflexivity |].
  cbn [pair_up length]. rewrite IH by (cbn; lia).
  change (S (S (length t))) with (1 * 2 + length t)%nat.
  rewrite Nat.add_comm, Nat.div_add by lia. lia.
Qed.

Lemma pair_up_lookup l k a b :
  l !! (2 * k) = Some a -> l !! (2 * k + 1) = Some b ->
  pair_up l !! k = Some (parent a b).
Proof.
  revert l. induction k as [|k IH]; intros l Ha Hb.
  - destruct l as [|x [|y t]]; cbn in *; congruence.
  - replace (2 * S k) with (S (S (2 * k))) in * by lia.
    destruct l as [|x [|y t]]; try discriminate.
    cbn in Ha, Hb. cbn [pair_up]. cbn. apply IH; assumption.
Qed.

Lemma pair_up_take_drop l a k x y :
  l !! (2 * a) = Some x -> l !! (2 * a + 1) = Some y ->
  pair_up (take (2 * S k) (drop (2 * a) l)) =
  parent x y :: pair_up (take (2 * k) (drop (2 * S a) l)).
Proof.
  intros Hx Hy.
  rewrite (drop_S _ _ _ Hx).
  replace (S (2 * a)) with (2 * a + 1) by lia.
  rewrite (drop_S _ _ _ Hy).
  replace (2 * S k) with (S (S (2 * k))) by lia.
  replace (S (2 * a + 1)) with (2 * S a) by lia.
  reflexivity.
Qed.

(** ** The loops of [_build_tree_levels] *)

Lemma world_eta w : World (heap w) (hash_calls w) (out w) = w.
Proof. destruct w. reflexivity. Qed.

Lemma call_ok d w :
  call_double_sha256 d w =
  Ok (double_sha256 d, World (heap w) (S (hash_calls w)) (out w)).
Proof. reflexivity. Qed.

Lemma pair_loop_run cur next L :
  cur ≠ next ->
  forall k a acc w,
    heap w !! cur = Some L ->
    heap w !! next = Some acc ->
    2 * (a + k) <= length L ->
    pair_loop cur next (map (fun j => 2 * j) (seq a k)) w =
    Ok (tt, World (<[next := acc ++ pair_up (take (2 * k) (drop (2 * a) L))]> (heap w))
                  (hash_calls w + k) (out w)).
Proof.
  intros Hne. induction k as [|k IH]; intros a acc w Hcur Hnext Hlen.
  - cbn [seq map pair_loop]. unfold ret.
    rewrite Nat.mul_0_r, take_0. cbn [pair_up].
    rewrite app_nil_r. rewrite (list_insert_id _ _ _ Hnext), Nat.add_0_r, world_eta.
    reflexivity.
  - cbn [seq map pair_loop].
    destruct (lookup_lt_is_Some_2 L (2 * a)) as [x Hx]; [lia|].
    destruct (lookup_lt_is_Some_2 L (2 * a + 1)) as [y Hy]; [lia|].
    step_with (list_get_ok _ _ _ _ _ Hcur Hx).
    step_with (list_get_ok _ _ _ _ _ Hcur Hy).
    step_with (call_ok _ _).
    set (w1 := World (heap w) (S (hash_calls w)) (out w)).
    assert (Hnext1 : heap w1 !! next = Some acc) by exact Hnext.
    step_with (list_append_ok _ _ (parent x y) _ Hnext1).
    pose proof (lookup_lt_Some _ _ _ Hnext) as Hlt.
    rewrite (IH (S a) (acc ++ [parent x y])); cbn [heap hash_calls out set_heap w1].
    + rewrite list_insert_insert_eq, (pair_up_take_drop _ _ _ _ _ Hx Hy).
      rewrite <- app_assoc. cbn [app].
      replace (S (hash_calls w) + k) with (hash_calls w + S k) by lia.
      reflexivity.
    + rewrite list_lookup_insert_ne by congruence. exact Hcur.
    + apply list_lookup_insert_eq. exact Hlt.
    + lia.
Qed.

Lemma padded_length l :
  length (padded l) = length l + length l mod 2.
Proof.
  unfold padded. destruct (length l mod 2 =? 0) eqn:E; cbn [negb].
  - apply Nat.eqb_eq in E. lia.
  - apply Nat.eqb_neq in E.
    destruct (last l) as [x|] eqn:Hl.
    + rewrite length_app. cbn [length]. pose proof (Nat.mod_upper_bound (length l) 2 ltac:(lia)). lia.
    + apply last_None in Hl. subst l. cbn in E. congruence.
Qed.

Lemma padded_even l : length (padded l) mod 2 = 0.
Proof.
  rewrite padded_length.
  pose proof (Nat.mod_upper_bound (length l) 2 ltac:(lia)).
  pose proof (Nat.div_mod_eq (length l) 2).
  destruct (length l mod 2) as [|[|?]] eqn:E; try lia.
  - rewrite Nat.add_0_r. exact E.
  - replace (length l + 1) with (0 + (length l / 2 + 1) * 2) by lia.
    rewrite Nat.Div0.mod_add. reflexivity.
Qed.

Lemma padded_lookup l i x : l !! i = Some x -> padded l !! i = Some x.
Proof.
  intros H. unfold padded.
  destruct (negb _); [|exact H].
  destruct (last l); [|exact H].
  apply lookup_app_l_Some. exact H.
Qed.

Lemma pad_step_run cur L w :
  heap w !! cur = Some L ->
  0 < length L ->
  (if negb (length L mod 2 =? 0)
   then x <- list_get_last cur ;; list_append cur x
   else ret tt) w =
  Ok (tt, set_heap (<[cur := padded L]> (heap w)) w).
Proof.
  intros Hcur Hpos. unfold padded.
  destruct (negb (length L mod 2 =? 0)).
  - destruct (last L) as [x|] eqn:Hl.
    + rewrite (bind_ok _ _ _ _ _ (list_get_last_ok _ _ _ _ Hcur Hl)).
      apply list_append_ok. exact Hcur.
    + apply last_None in Hl. subst L. cbn in Hpos. lia.
  - unfold ret, set_heap. rewrite (list_insert_id _ _ _ Hcur), world_eta. reflexivity.
Qed.

Lemma range_by_2_even n :
  n mod 2 = 0 -> range_by_2 n = map (fun k => 2 * k) (seq 0 (n / 2)).
Proof.
  intros Hn. unfold range_by_2. f_equal. f_equal.
  rewrite Nat.div2_div.
  pose proof (Nat.div_mod_eq n 2).
  replace (S n) with (1 + (n / 2) * 2) by lia.
  rewrite Nat.div_add by lia. reflexivity.
Qed.

Lemma stored_levels_cons fuel l :
  exists l0 rest, stored_levels fuel l = l0 :: rest.
Proof. destruct fuel; cbn [stored_levels]; [eauto|]. destruct (1 <? length l); eauto. Qed.

Lemma level_loop_run fuel :
  forall levels cur L w l0 rest,
    heap w !! cur = Some L ->
    length L < fuel ->
    stored_levels fuel L = l0 :: rest ->
    level_loop fuel levels cur w =
    Ok (levels ++ seq (length (heap w)) (length rest),
        World (<[cur := l0]> (heap w) ++ rest)
              (hash_calls w + build_hashes fuel L) (out w)).
Proof.
  induction fuel as [|fuel IH]; intros levels cur L w l0 rest Hcur Hfuel Hst; [lia|].
  cbn [level_loop stored_levels build_hashes] in *.
  step_with (list_len_ok _ _ _ Hcur).
  destruct (1 <? length L) eqn:Hn.
  - apply Nat.ltb_lt in Hn.
    injection Hst as <- <-.
    rewrite (bind_ok _ _ _ tt _ (pad_step_run _ _ _ Hcur ltac:(lia))).
    pose proof (lookup_lt_Some _ _ _ Hcur) as Hlt.
    set (w1 := set_heap (<[cur := padded L]> (heap w)) w).
    assert (Hcur1 : heap w1 !! cur = Some (padded L))
      by (apply list_lookup_insert_eq; exact Hlt).
    unfold bind at 1. unfold new_list at 1.
    set (w2 := set_heap (heap w1 ++ [[]]) w1).
    assert (Hcur2 : heap w2 !! cur = Some (padded L))
      by (apply lookup_app_l_Some; exact Hcur1).
    step_with (list_len_ok _ _ _ Hcur2).
    assert (Hnext2 : heap w2 !! length (heap w1) = Some [])
      by (cbn [w2 heap set_heap]; apply list_lookup_middle; reflexivity).
    assert (Hlen1 : length (heap w1) = length (heap w))
      by (cbn [w1 heap set_heap]; apply length_insert).
    rewrite (range_by_2_even _ (padded_even L)).
    pose proof (padded_length L) as HpL.
    pose proof (padded_even L) as Hpe.
    pose proof (Nat.div_mod_eq (length (padded L)) 2) as Hdm.
    rewrite (bind_ok _ _ _ tt _
               (pair_loop_run cur (length (heap w1)) (padded L) ltac:(lia)
                  (length (padded L) / 2) 0 [] w2 Hcur2 Hnext2 ltac:(lia))).
    rewrite Nat.mul_0_r, drop_0, take_ge by lia. cbn [app].
    set (P := pair_up (padded L)).
    destruct (stored_levels_cons fuel P) as (p0 & prest & HP).
    set (w3 := World _ _ _).
    assert (Hheap3 : heap w3 = <[cur := padded L]> (heap w) ++ [P]).
    { cbn [w3 heap w2 set_heap w1].
      replace (length (<[cur := padded L]> (heap w)))
        with (length (<[cur := padded L]> (heap w)) + 0) by lia.
      rewrite insert_app_r. reflexivity. }
    assert (HP3 : heap w3 !! length (heap w1) = Some P).
    { rewrite Hheap3. apply list_lookup_middle. reflexivity. }
    assert (HPlen : length P < fuel).
    { unfold P. rewrite pair_up_length.
      pose proof (Nat.mod_upper_bound (length L) 2 ltac:(lia)). lia. }
    rewrite (IH _ _ P w3 p0 prest HP3 HPlen HP).
    rewrite HP. f_equal. f_equal.
    + rewrite <- app_assoc. f_equal.
      rewrite Hheap3, length_app, length_insert, Hlen1. cbn [app length seq].
      replace (length (heap w) + 1) with (S (length (heap w))) by lia.
      reflexivity.
    + f_equal.
      * rewrite Hheap3.
        replace (length (heap w1)) with (length (<[cur := padded L]> (heap w)) + 0)
          by (cbn [w1 heap set_heap]; lia).
        rewrite insert_app_r. cbn. rewrite <- app_assoc. reflexivity.
      * cbn [w3 hash_calls w2 w1 set_heap]. fold P. lia.
  - injection Hst as <- <-.
    unfold ret. cbn [length seq]. rewrite !app_nil_r.
    rewrite (list_insert_id _ _ _ Hcur), Nat.add_0_r, world_eta. reflexivity.
Qed.

(** ** The shape of the stored levels *)

Lemma stored_levels_head fuel l :
  length l < fuel -> exists rest, stored_levels fuel l = stored l :: rest.
Proof.
  destruct fuel as [|fuel]; [lia|]. intros _.
  cbn [stored_levels]. unfold stored.
  destruct (1 <? length l); eauto.
Qed.

Lemma half_lt n : 1 < n -> (n + n mod 2) / 2 < n.
Proof.
  intros Hn. pose proof (Nat.mod_upper_bound n 2 ltac:(lia)).
  apply Nat.Div0.div_lt_upper_bound. lia.
Qed.

Lemma half_pos n : 1 < n -> 0 < (n + n mod 2) / 2.
Proof.
  intros Hn. apply Nat.div_str_pos. lia.
Qed.

Lemma stored_linked fuel :
  forall l, 0 < length l -> length l < fuel -> linked (stored_levels fuel l).
Proof.
  induction fuel as [|fuel IH]; intros l Hpos Hfuel; [lia|].
  cbn [stored_levels].
  destruct (1 <? length l) eqn:Hn.
  - apply Nat.ltb_lt in Hn.
    pose proof (padded_length l) as Hp.
    assert (Hlen : length (pair_up (padded l)) < fuel).
    { rewrite pair_up_length, Hp. pose proof (half_lt _ Hn). lia. }
    assert (Hpos' : 0 < length (pair_up (padded l))).
    { rewrite pair_up_length, Hp. apply half_pos, Hn. }
    pose proof (IH _ Hpos' Hlen) as Hl.
    destruct (stored_levels_head fuel _ Hlen) as [rest Hrest].
    rewrite Hrest in *.
    apply linked_cons; [apply padded_even | lia | exact Hl].
  - apply Nat.ltb_ge in Hn.
    destruct l as [|r [|? ?]]; cbn in *; try lia. constructor.
Qed.

Lemma tree_levels_of_linked l : l <> [] -> linked (tree_levels_of l).
Proof.
  intros Hl. destruct l as [|x l]; [congruence|].
  apply stored_linked; cbn [length]; lia.
Qed.

Lemma tree_levels_of_head l :
  l <> [] -> exists rest, tree_levels_of l = stored l :: rest.
Proof.
  intros Hl. destruct l as [|x l]; [congruence|].
  apply stored_levels_head. lia.
Qed.

Lemma linked_last levels : linked levels -> exists r, last levels = Some [r].
Proof.
  induction 1 as [r|level above _ _ _ [r IH]]; [exists r; reflexivity|].
  exists r. rewrite last_cons_cons. exact IH.
Qed.

Lemma stored_lookup l i x : l !! i = Some x -> stored l !! i = Some x.
Proof.
  intros H. unfold stored. destruct (1 <? length l); [|exact H].
  apply padded_lookup, H.
Qed.

(** ** Climbing a path *)

Lemma climb_cons e proof x : climb (e :: proof) x = climb proof (climb_step x e).
Proof. reflexivity. Qed.

Lemma even_index_pair (level : list string) i :
  length level mod 2 = 0 -> i < length level ->
  2 * (i / 2) + 1 < length level.
Proof.
  intros He Hi.
  pose proof (Nat.div_mod_eq i 2). pose proof (Nat.mod_upper_bound i 2 ltac:(lia)).
  pose proof (Nat.div_mod_eq (length level) 2).
  assert (i / 2 < length level / 2) by (apply Nat.Div0.div_lt_upper_bound; lia).
  lia.
Qed.

Lemma sibling_step level i x :
  length level mod 2 = 0 ->
  level !! i = Some x ->
  pair_up level !! (i / 2) = Some (climb_step x (sibling_entry level i)).
Proof.
  intros He Hx.
  pose proof (lookup_lt_Some _ _ _ Hx) as Hi.
  pose proof (even_index_pair _ _ He Hi) as Hpair.
  pose proof (Nat.div_mod_eq i 2) as Hdm.
  pose proof (Nat.mod_upper_bound i 2 ltac:(lia)) as Hm.
  unfold sibling_entry, climb_step.
  destruct (i mod 2 =? 0) eqn:E; cbn [fst snd].
  - apply Nat.eqb_eq in E.
    destruct (lookup_lt_is_Some_2 level (i + 1)) as [y Hy]; [lia|].
    rewrite (nth_lookup_Some _ _ _ _ Hy).
    rewrite decide_True by reflexivity.
    apply pair_up_lookup.
    + replace (2 * (i / 2)) with i by lia. exact Hx.
    + replace (2 * (i / 2) + 1) with (i + 1) by lia. exact Hy.
  - apply Nat.eqb_neq in E.
    destruct (lookup_lt_is_Some_2 level (i - 1)) as [y Hy]; [lia|].
    rewrite (nth_lookup_Some _ _ _ _ Hy).
    rewrite decide_False by discriminate.
    apply pair_up_lookup.
    + replace (2 * (i / 2)) with (i - 1) by lia. exact Hy.
    + replace (2 * (i / 2) + 1) with i by lia. exact Hx.
Qed.

Lemma climb_path levels :
  linked levels ->
  forall i x, hd [] levels !! i = Some x ->
  last levels = Some [climb (path levels i) x].
Proof.
  induction 1 as [r|level above He Hpos Hl IH]; intros i x Hx.
  - cbn in Hx. destruct i; cbn in Hx; [|discriminate].
    injection Hx as ->. reflexivity.
  - cbn [hd] in Hx.
    rewrite last_cons_cons.
    change (path (level :: stored (pair_up level) :: above) i)
      with (sibling_entry level i :: path (stored (pair_up level) :: above) (i / 2)).
    rewrite climb_cons. apply IH. cbn [hd].
    apply stored_lookup, sibling_step; assumption.
Qed.

Lemma path_length levels i : length (path levels i) = length levels - 1.
Proof.
  revert i. induction levels as [|level [|next above] IH]; intros i; try reflexivity.
  change (path (level :: next :: above) i)
    with (sibling_entry level i :: path (next :: above) (i / 2)).
  cbn [length]. rewrite IH. cbn [length]. lia.
Qed.

(** ** Building the tree *)

Lemma build_run_empty leaves w :
  heap w !! leaves = Some [] -> _build_tree_levels leaves w = Ok ([], w).
Proof.
  intros Hl. unfold _build_tree_levels.
  rewrite (bind_ok _ _ _ _ _ (list_len_ok _ _ _ Hl)). reflexivity.
Qed.

Lemma build_run leaves l w l0 rest :
  heap w !! leaves = Some l ->
  l <> [] ->
  tree_levels_of l = l0 :: rest ->
  _build_tree_levels leaves w =
  Ok (leaves :: seq (length (heap w)) (length rest),
      World (<[leaves := l0]> (heap w) ++ rest)
            (hash_calls w + build_hashes (S (length l)) l) (out w)).
Proof.
  intros Hl Hne Hst. unfold _build_tree_levels.
  step_with (list_len_ok _ _ _ Hl).
  destruct l as [|x l]; [congruence|].
  cbn [length Nat.eqb].
  apply (level_loop_run _ [leaves] _ _ _ _ _ Hl); [cbn [length]; lia | exact Hst].
Qed.

Lemma lookup_fresh_levels (h : list (list string)) levels :
  Forall2 (fun l v => (h ++ levels) !! l = Some v)
          (seq (length h) (length levels)) levels.
Proof.
  revert h. induction levels as [|v levels IH]; intros h; [constructor|].
  cbn [length seq]. constructor.
  - apply list_lookup_middle. reflexivity.
  - specialize (IH (h ++ [v])).
    rewrite <- app_assoc, length_app in IH. cbn [app length] in IH.
    replace (length h + 1) with (S (length h)) in IH by lia. exact IH.
Qed.

Lemma MerkleTree_init_run txs w :
  let l := map txid txs in
  MerkleTree_init txs w =
  Ok (mkMerkleTree txs (length (heap w))
        (seq (length (heap w)) (length (tree_levels_of l)))
        (last (tree_levels_of l) ≫= head),
      World (heap_after_init (heap w) l)
            (hash_calls w + match l with [] => 0 | _ => build_hashes (S (length l)) l end)
            (out w)).
Proof.
  intros l. unfold MerkleTree_init, heap_after_init. fold l.
  unfold bind at 1. unfold new_list at 1.
  set (w1 := set_heap (heap w ++ [l]) w).
  assert (Hl : heap w1 !! length (heap w) = Some l)
    by (apply list_lookup_middle; reflexivity).
  destruct (decide (l = [])) as [E|Hne].
  - rewrite E in *.
    step_with (build_run_empty _ _ Hl).
    cbn [last tree_levels_of length seq mbind option_bind].
    rewrite bind_ret. unfold ret, w1, set_heap. rewrite Nat.add_0_r, E. reflexivity.
  - destruct (tree_levels_of_head l Hne) as [rest Hst].
    step_with (build_run _ _ _ _ _ Hl Hne Hst).
    pose proof (tree_levels_of_linked l Hne) as Hlk.
    destruct (linked_last _ Hlk) as [r Hr].
    set (w2 := World _ _ _).
    assert (Hheap : heap w2 = heap w ++ tree_levels_of l).
    { cbn [w2 heap w1 set_heap].
      replace (length (heap w)) with (length (heap w) + 0) at 1 by lia.
      rewrite insert_app_r, Hst. cbn. rewrite <- app_assoc. reflexivity. }
    assert (Htop : exists top,
               last (length (heap w) :: seq (length (heap w1)) (length rest)) = Some top
               /\ heap w2 !! top = Some [r]).
    { pose proof (lookup_fresh_levels (heap w) (tree_levels_of l)) as HF.
      rewrite <- Hheap in HF.
      assert (Hseq : length (heap w) :: seq (length (heap w1)) (length rest)
                     = seq (length (heap w)) (length (tree_levels_of l))).
      { rewrite Hst. cbn [length seq w1 heap set_heap].
        rewrite length_app. cbn [length].
        replace (length (heap w) + 1) with (S (length (heap w))) by lia.
        reflexivity. }
      rewrite Hseq.
      rewrite !last_lookup in *.
      pose proof (Forall2_length _ _ _ HF) as HlenF.
      rewrite HlenF.
      destruct (Forall2_lookup_r _ _ _ _ _ HF Hr) as (top & Htop & Hv).
      exists top. split; assumption. }
    destruct Htop as (top & Htop & Hv).
    rewrite Htop.
    rewrite (bind_ok _ _ _ _ _
               (bind_ok _ _ _ _ _ (list_get_ok top [r] 0 r w2 Hv eq_refl))).
    unfold ret. rewrite Hr. cbn [mbind option_bind head].
    f_equal. f_equal.
    + f_equal. rewrite Hst. cbn [length seq w1 heap set_heap].
      rewrite length_app. cbn [length].
      replace (length (heap w) + 1) with (S (length (heap w))) by lia.
      reflexivity.
    + destruct l; [congruence|]. rewrite <- Hheap. reflexivity.
Qed.

Lemma heap_after_init_ne h l :
  l <> [] -> heap_after_init h l = h ++ tree_levels_of l.
Proof. intros Hne. unfold heap_after_init. destruct l; [congruence|reflexivity]. Qed.

Lemma MerkleTree_init_tree_at txs w t w' :
  MerkleTree_init txs w = Ok (t, w') ->
  tree_at (heap w') t (tree_levels_of (map txid txs)).
Proof.
  rewrite MerkleTree_init_run. intros [= <- <-].
  cbn [heap]. generalize (map txid txs). intros l.
  destruct (decide (l = [])) as [->|Hne].
  - split; cbn [txids tree_levels root tree_levels_of hd length seq].
    + apply list_lookup_middle. reflexivity.
    + constructor.
    + reflexivity.
  - rewrite (heap_after_init_ne _ _ Hne).
    split; cbn [txids tree_levels root].
    + destruct (tree_levels_of_head l Hne) as [rest ->]. cbn [hd].
      apply list_lookup_middle. reflexivity.
    + apply lookup_fresh_levels.
    + reflexivity.
Qed.

(** ** Extracting a proof *)

Lemma list_index_Some x l i :
  list_index x l = Some i ->
  l !! i = Some x /\ forall j, j < i -> l !! j <> Some x.
Proof.
  revert i. induction l as [|y l IH]; intros i; cbn [list_index]; [discriminate|].
  destruct (decide (y = x)) as [-> | Hne].
  - intros [= <-]. split; [reflexivity|]. intros j Hj. lia.
  - destruct (list_index x l) as [k|] eqn:E; cbn; [|discriminate].
    intros [= <-]. destruct (IH k eq_refl) as [Hk Hmin].
    split; [exact Hk|]. intros [|j] Hj; cbn; [congruence|].
    apply Hmin. lia.
Qed.

Lemma list_index_None x l : list_index x l = None <-> x ∉ l.
Proof.
  induction l as [|y l IH]; cbn [list_index].
  - split; [intros _; apply not_elem_of_nil | reflexivity].
  - rewrite not_elem_of_cons. destruct (decide (y = x)) as [-> | Hne].
    + split; [discriminate | intros [? _]; congruence].
    + destruct (list_index x l); cbn.
      * split; [discriminate|]. intros [_ H]. apply IH in H. discriminate.
      * split; [|reflexivity]. intros _. split; [congruence|]. apply IH. reflexivity.
Qed.

Lemma list_index_elem_of x l : x ∈ l -> exists i, list_index x l = Some i.
Proof.
  intros Hx. destruct (list_index x l) as [i|] eqn:E; [eauto|].
  apply list_index_None in E. contradiction.
Qed.

Lemma list_index_app x l l' i :
  list_index x l = Some i -> list_index x (l ++ l') = Some i.
Proof.
  revert i. induction l as [|y l IH]; intros i; cbn [list_index app]; [discriminate|].
  destruct (decide (y = x)); [auto|].
  destruct (list_index x l) as [k|]; cbn; [|discriminate].
  intros [= <-]. rewrite (IH k eq_refl). reflexivity.
Qed.

(** Padding repeats an entry that is already there: the first position of
    a fingerprint is the same in the stored level. *)
Lemma list_index_stored x l : list_index x (stored l) = list_index x l.
Proof.
  unfold stored, padded.
  destruct (1 <? length l); [|reflexivity].
  destruct (negb _); [|reflexivity].
  destruct (last l) as [y|] eqn:Hy; [|reflexivity].
  destruct (list_index x l) as [i|] eqn:E.
  - apply list_index_app, E.
  - apply list_index_None. apply list_index_None in E.
    rewrite elem_of_app, list_elem_of_singleton.
    intros [? | ->]; [contradiction|].
    apply E, last_Some_elem_of, Hy.
Qed.

Lemma proof_loop_run tls levels w :
  Forall2 (fun l v => heap w !! l = Some v) tls levels ->
  forall sub, linked sub ->
  forall a i acc,
    drop a levels = sub ->
    i < length (hd [] sub) ->
    proof_loop tls (seq a (length sub - 1)) i acc w = Ok (acc ++ path sub i, w).
Proof.
  intros HF sub Hsub.
  induction Hsub as [r|level above He Hpos Hl IH]; intros a i acc Hdrop Hi.
  - cbn. rewrite app_nil_r. reflexivity.
  - cbn [length Nat.sub] in *.
    change (path (level :: stored (pair_up level) :: above) i)
      with (sibling_entry level i :: path (stored (pair_up level) :: above) (i / 2)).
    cbn [seq proof_loop hd] in *.
    assert (Ha : levels !! a = Some level).
    { rewrite <- (Nat.add_0_r a), <- lookup_drop, Hdrop. reflexivity. }
    destruct (Forall2_lookup_r _ _ _ _ _ HF Ha) as (la & Hla & Hlv).
    rewrite Hla.
    step_with (list_len_ok _ _ _ Hlv).
    rewrite He. cbn [Nat.eqb negb andb].
    assert (Hdrop' : drop (S a) levels = stored (pair_up level) :: above).
    { replace (S a) with (a + 1) by lia. rewrite <- drop_drop, Hdrop. reflexivity. }
    assert (Hi' : i / 2 < length (stored (pair_up level))).
    { destruct (lookup_lt_is_Some_2 level i Hi) as [x Hx].
      eapply lookup_lt_Some, stored_lookup, sibling_step; eassumption. }
    pose proof (even_index_pair _ _ He Hi) as Hpair.
    pose proof (Nat.div_mod_eq i 2) as Hdm.
    pose proof (Nat.mod_upper_bound i 2 ltac:(lia)) as Hm.
    specialize (IH (S a) (i / 2)).
    cbn [length Nat.sub hd] in IH. rewrite Nat.sub_0_r in IH.
    unfold sibling_entry.
    destruct (i mod 2 =? 0) eqn:E.
    + apply Nat.eqb_eq in E.
      destruct (lookup_lt_is_Some_2 level (i + 1)) as [y Hy]; [lia|].
      step_with (list_get_ok _ _ _ _ _ Hlv Hy).
      rewrite (nth_lookup_Some _ _ _ _ Hy).
      rewrite IH by assumption. rewrite <- app_assoc. reflexivity.
    + apply Nat.eqb_neq in E.
      destruct (lookup_lt_is_Some_2 level (i - 1)) as [y Hy]; [lia|].
      step_with (list_get_ok _ _ _ _ _ Hlv Hy).
      rewrite (nth_lookup_Some _ _ _ _ Hy).
      rewrite IH by assumption. rewrite <- app_assoc. reflexivity.
Qed.

Lemma get_proof_absent h t levels w target :
  heap w = h ->
  tree_at h t levels ->
  list_index target (hd [] levels) = None ->
  get_proof t target w = Ok (None, w).
Proof.
  intros <- [Hids _ _] Hidx. unfold get_proof.
  rewrite (bind_ok _ _ _ _ _ (read_ok _ _ _ Hids)), Hidx. reflexivity.
Qed.

Lemma get_proof_present h t levels w target i :
  heap w = h ->
  tree_at h t levels ->
  linked levels ->
  list_index target (hd [] levels) = Some i ->
  get_proof t target w = Ok (Some (path levels i), w).
Proof.
  intros <- [Hids HF _] Hlk Hidx. unfold get_proof.
  rewrite (bind_ok _ _ _ _ _ (read_ok _ _ _ Hids)), Hidx.
  rewrite (Forall2_length _ _ _ HF).
  destruct (list_index_Some _ _ _ Hidx) as [Hi _].
  rewrite (bind_ok _ _ _ _ _
             (proof_loop_run _ _ _ HF levels Hlk 0 i [] eq_refl
                (lookup_lt_Some _ _ _ Hi))).
  reflexivity.
Qed.

(** ** Verifying *)

Lemma verify_loop_run proof :
  forall calculated_hash step_num w,
    verify_loop proof calculated_hash step_num w =
    Ok (climb proof calculated_hash,
        World (heap w) (hash_calls w + length proof)
              (out w ++ verify_log proof calculated_hash step_num)).
Proof.
  induction proof as [|[sibling_hash side] proof IH]; intros c n w.
  - cbn. unfold ret. rewrite Nat.add_0_r, app_nil_r, world_eta. reflexivity.
  - cbn [verify_loop verify_log length].
    unfold bind at 1. unfold log at 1.
    step_with (call_ok _ _).
    unfold bind at 1. unfold log at 1.
    rewrite IH. cbn [heap hash_calls out fst snd].
    rewrite climb_cons. unfold climb_step at 1 2 3. cbn [fst snd].
    rewrite <- !app_assoc. cbn [app].
    replace (S (hash_calls w) + length proof)
      with (hash_calls w + S (length proof)) by lia.
    destruct (decide (side = "right"%string)); reflexivity.
Qed.

(** With a header and a proof, the verifier answers whether the fold of the
    proof from the fingerprint ends at the root of the header. *)
Lemma verify_transaction_run hdr txid proof w :
  exists w',
    verify_transaction (mkSPVClient (Some hdr)) txid (Some proof) w =
    Ok (bool_decide (Some (climb proof txid) = merkle_root hdr), w')
    /\ heap w' = heap w
    /\ hash_calls w' = hash_calls w + length proof.
Proof.
  unfold verify_transaction. cbn [block_header].
  unfold bind at 1. unfold log at 1.
  step_with (verify_loop_run _ _ _ _).
  unfold bind at 1. unfold log at 1.
  unfold bind at 1. unfold log at 1.
  cbn [heap hash_calls out].
  destruct (decide (Some (climb proof txid) = merkle_root hdr)) as [E|E].
  - rewrite bool_decide_eq_true_2 by exact E.
    eexists. split; [reflexivity|]. split; reflexivity.
  - rewrite bool_decide_eq_false_2 by exact E.
    eexists. split; [reflexivity|]. split; reflexivity.
Qed.

(** ** Proofs of built trees verify *)

(** The proof of the entry at a position of the leaf level climbs to the
    root of the tree. *)
Lemma built_tree_verifies txs w i x :
  stored (map txid txs) !! i = Some x ->
  list_index x (map txid txs) = Some i ->
  exists t w1 w3,
    MerkleTree_init txs w = Ok (t, w1)
    /\ get_proof t x w1 = Ok (Some (path (tree_levels_of (map txid txs)) i), w1)
    /\ verify_transaction (client_of t) x
         (Some (path (tree_levels_of (map txid txs)) i)) w1 = Ok (true, w3)
    /\ length (path (tree_levels_of (map txid txs)) i) = length (tree_levels t) - 1.
Proof.
  intros Hx Hidx.
  destruct (MerkleTree_init txs w) as [[t w1]|e] eqn:Hinit;
    [|rewrite MerkleTree_init_run in Hinit; discriminate].
  pose proof (MerkleTree_init_tree_at _ _ _ _ Hinit) as Hat.
  set (l := map txid txs) in *.
  assert (Hne : l <> []) by (intros E; rewrite E in Hidx; discriminate).
  pose proof (tree_levels_of_linked l Hne) as Hlk.
  destruct (tree_levels_of_head l Hne) as [rest Hst].
  assert (Hidx' : list_index x (hd [] (tree_levels_of l)) = Some i).
  { rewrite Hst. cbn [hd]. rewrite list_index_stored. exact Hidx. }
  pose proof (climb_path _ Hlk i x) as Hclimb.
  rewrite Hst in Hclimb at 1. cbn [hd] in Hclimb. specialize (Hclimb Hx).
  destruct (verify_transaction_run (mkHeader (root t)) x
              (path (tree_levels_of l) i) w1) as (w3 & Hv & _ & _).
  exists t, w1, w3. split; [reflexivity|]. split; [|split].
  - eapply get_proof_present; eauto.
  - unfold client_of. rewrite Hv. cbn [merkle_root].
    rewrite (at_root _ _ _ Hat), Hclimb. cbn [mbind option_bind head].
    rewrite bool_decide_eq_true_2 by reflexivity. reflexivity.
  - rewrite path_length, (Forall2_length _ _ _ (at_levels _ _ _ Hat)). reflexivity.
Qed.

(** C1: for every non-empty sequence of records and every record in it, the
    proof that [get_proof] returns for the record's fingerprint verifies
    against the root of the tree: [verify_transaction] returns [True]. *)
Theorem C1_every_record_verifies (txs : list Transaction) (w : world)
    (tx : Transaction) :
  tx ∈ txs ->
  exists t w1 proof w2 w3,
    MerkleTree_init txs w = Ok (t, w1)
    /\ get_proof t (txid tx) w1 = Ok (Some proof, w2)
    /\ verify_transaction (client_of t) (txid tx) (Some proof) w2 = Ok (true, w3).
Proof.
  intros Hin.
  assert (Hx : txid tx ∈ map txid txs) by (apply list_elem_of_fmap_2, Hin).
  destruct (list_index_elem_of _ _ Hx) as [i Hidx].
  destruct (list_index_Some _ _ _ Hidx) as [Hi _].
  destruct (built_tree_verifies txs w i (txid tx) (stored_lookup _ _ _ Hi) Hidx)
    as (t & w1 & w3 & Hinit & Hget & Hver & _).
  exists t, w1, (path (tree_levels_of (map txid txs)) i), w1, w3. auto.
Qed.

Lemma C1_witness :
  record "c" ∈ records_abc
  /\ exists t w1 proof w2 w3,
       MerkleTree_init records_abc empty_world = Ok (t, w1)
       /\ get_proof t (txid (record "c")) w1 = Ok (Some proof, w2)
       /\ verify_transaction (client_of t) (txid (record "c")) (Some proof) w2
          = Ok (true, w3).
Proof.
  assert (Hin : record "c" ∈ records_abc)
    by (do 2 apply list_elem_of_further; apply list_elem_of_here).
  split; [exact Hin|].
  exact (C1_every_record_verifies records_abc empty_world (record "c") Hin).
Defined.

(** ** A single record *)

(** C4: for a single record the tree has one level, its root is the
    record's fingerprint and building it calls [double_sha256] not once;
    [get_proof] returns the empty proof for that fingerprint, and verifying
    it against the root succeeds, still with no call of [double_sha256]. *)
Theorem C4_single_record (tx : Transaction) (w : world) :
  exists t w1 w2 w3,
    MerkleTree_init [tx] w = Ok (t, w1)
    /\ length (tree_levels t) = 1
    /\ root t = Some (txid tx)
    /\ hash_calls w1 = hash_calls w
    /\ get_proof t (txid tx) w1 = Ok (Some [], w2)
    /\ verify_transaction (client_of t) (txid tx) (Some []) w2 = Ok (true, w3)
    /\ hash_calls w3 = hash_calls w.
Proof.
  destruct (built_tree_verifies [tx] w 0 (txid tx))
    as (t & w1 & w3 & Hinit & Hget & Hver & _).
  { reflexivity. }
  { cbn [map list_index]. rewrite decide_True by reflexivity. reflexivity. }
  change (path (tree_levels_of (map txid [tx])) 0) with (@nil proof_entry) in *.
  destruct (verify_transaction_run (mkHeader (root t)) (txid tx) [] w1)
    as (w3' & Hv' & _ & Hh).
  unfold client_of in Hver. rewrite Hver in Hv'. injection Hv' as _ <-.
  pose proof Hinit as Hrun. rewrite MerkleTree_init_run in Hrun.
  injection Hrun as Ht Hw1.
  exists t, w1, w1, w3.
  assert (Hcalls : hash_calls w1 = hash_calls w) by (rewrite <- Hw1; cbn; lia).
  repeat split; try assumption.
  - rewrite <- Ht. reflexivity.
  - rewrite <- Ht. reflexivity.
  - cbn [length] in Hh. lia.
Qed.

(** ** The verifier is the fold of the specification *)

Lemma climb_proof_text proof leaf :
  climb (proof_text proof) leaf = fold_left spec_step proof leaf.
Proof.
  revert leaf. induction proof as [|[sibling side] proof IH]; intros leaf; [reflexivity|].
  cbn [proof_text map fold_left]. rewrite climb_cons.
  change (map (fun e : string * Side => (e.1, side_text e.2)) proof)
    with (proof_text proof).
  rewrite IH. f_equal.
  destruct side; reflexivity.
Qed.

(** C5: with a header set and a proof given, [verify_transaction] is the
    left-to-right fold of the specification: the accumulator starts at the
    leaf fingerprint, a RIGHT entry replaces it by the fingerprint of
    accumulator then sibling, a LEFT entry by the fingerprint of sibling then
    accumulator, and the answer is success exactly when the final accumulator
    is the reference root. *)
Theorem C5_verify_is_fold (referenceRoot leafFingerprint : string)
    (proof : list (string * Side)) (w : world) :
  exists w',
    verify_transaction (mkSPVClient (Some (mkHeader (Some referenceRoot))))
      leafFingerprint (Some (proof_text proof)) w
    = Ok (spec_verify leafFingerprint proof referenceRoot, w').
Proof.
  destruct (verify_transaction_run (mkHeader (Some referenceRoot)) leafFingerprint
              (proof_text proof) w) as (w' & Hv & _).
  exists w'. rewrite Hv. cbn [merkle_root]. unfold spec_verify.
  rewrite climb_proof_text. do 2 f_equal.
  apply bool_decide_ext. split; congruence.
Qed.

(** ** The fingerprint function *)

(** ** Text in full: UTF-8 and its refusals *)

Lemma byte_of_N_to_N n : (n < 256)%N -> Byte.to_N (Unicode.byte_of_N n) = n.
Proof.
  intros Hn. unfold Unicode.byte_of_N.
  destruct (Byte.of_N n) as [b|] eqn:E.
  - apply Byte.to_of_N, E.
  - apply Byte.of_N_None_iff in E. lia.
Qed.

Ltac ndiv := zify; Z.to_euclidean_division_equations; lia.

Ltac decide_tests :=
  repeat match goal with
         | |- context [(?a <? ?b)%N] =>
             first [ rewrite (proj2 (N.ltb_lt a b)) by ndiv
                   | rewrite (proj2 (N.ltb_ge a b)) by ndiv ]
         | |- context [(?a <=? ?b)%N] =>
             first [ rewrite (proj2 (N.leb_le a b)) by ndiv
                   | rewrite (proj2 (N.leb_gt a b)) by ndiv ]
         end.

Lemma continuation_byte n :
  (n < 0x40)%N -> continuation (Unicode.byte_of_N (0x80 + n)) = Some n.
Proof.
  intros Hn. unfold continuation.
  rewrite byte_of_N_to_N by lia. decide_tests. cbn [andb]. f_equal. lia.
Qed.

(** What [encode] makes of a code point, the decoder of the standard reads
    back as that code point. *)
Lemma encode_char_decode c bs rest :
  (c < 0x110000)%N ->
  Unicode.encode_char c = Some bs ->
  utf8_decode (bs ++ rest) = cons c <$> utf8_decode rest.
Proof.
  intros Hc. unfold Unicode.encode_char, Unicode.is_surrogate.
  destruct (N.ltb_spec c 0x80) as [H1|H1].
  { intros [= <-]. cbn [app utf8_decode]. cbv zeta.
    rewrite byte_of_N_to_N by lia. decide_tests. reflexivity. }
  destruct (N.ltb_spec c 0x800) as [H2|H2].
  { intros [= <-]. cbn [app utf8_decode]. cbv zeta.
    rewrite byte_of_N_to_N by ndiv. decide_tests.
    rewrite continuation_byte by ndiv. decide_tests.
    replace ((0xC0 + c / 0x40 - 0xC0) * 0x40 + c mod 0x40)%N with c by ndiv.
    reflexivity. }
  destruct (N.leb_spec 0xD800 c) as [H3|H3];
    [destruct (N.leb_spec c 0xDFFF) as [H4|H4]; cbn [andb]; [discriminate|]|cbn [andb]].
  all: destruct (N.ltb_spec c 0x10000) as [H5|H5]; try lia.
  all: intros [= <-]; cbn [app utf8_decode]; cbv zeta.
  all: rewrite byte_of_N_to_N by ndiv; decide_tests.
  all: rewrite ?(continuation_byte (c / 0x1000 mod 0x40)) by ndiv.
  all: rewrite (continuation_byte (c / 0x40 mod 0x40)) by ndiv.
  all: rewrite (continuation_byte (c mod 0x40)) by ndiv.
  all: decide_tests; cbn [andb negb].
  all: match goal with
       | |- cons ?x <$> _ = _ => replace x with c by ndiv
       end; reflexivity.
Qed.

Lemma encode_char_None c :
  Unicode.encode_char c = None <-> Unicode.is_surrogate c = true.
Proof.
  unfold Unicode.encode_char, Unicode.is_surrogate.
  destruct (N.ltb_spec c 0x80) as [H1|H1].
  { split; [discriminate|]. intros H. apply andb_true_iff in H as [H _].
    apply N.leb_le in H. lia. }
  destruct (N.ltb_spec c 0x800) as [H2|H2].
  { split; [discriminate|]. intros H. apply andb_true_iff in H as [H _].
    apply N.leb_le in H. lia. }
  destruct ((0xD800 <=? c)%N && (c <=? 0xDFFF)%N); [split; reflexivity|].
  destruct (c <? 0x10000)%N; split; discriminate.
Qed.

Lemma encode_from_decode s :
  forall start b,
    Forall (fun c => (c < 0x110000)%N) s ->
    Unicode.encode_from start s = Unicode.Return b ->
    utf8_decode b = Some s.
Proof.
  induction s as [|c s IH]; intros start b Hs H.
  - injection H as <-. reflexivity.
  - cbn [Unicode.encode_from] in H.
    destruct (Unicode.encode_char c) as [bs|] eqn:Ec; [|discriminate].
    destruct (Unicode.encode_from (S start) s) as [rest|i] eqn:Er; [|discriminate].
    injection H as <-.
    apply Forall_cons in Hs as [Hc Hs].
    rewrite (encode_char_decode _ _ _ Hc Ec), (IH _ _ Hs Er). reflexivity.
Qed.

(** [encode] returns when the text has no surrogate, and otherwise raises
    at the first one. *)
Lemma encode_from_outcome s :
  forall start,
    match Unicode.encode_from start s with
    | Unicode.Return _ => Forall (fun c => Unicode.is_surrogate c = false) s
    | Unicode.UnicodeEncodeError i =>
        exists k c,
          i = start + k
          /\ s !! k = Some c
          /\ Unicode.is_surrogate c = true
          /\ Forall (fun c => Unicode.is_surrogate c = false) (take k s)
    end.
Proof.
  induction s as [|c s IH]; intros start; [constructor|].
  cbn [Unicode.encode_from].
  destruct (Unicode.encode_char c) as [bs|] eqn:Ec.
  - assert (Hc : Unicode.is_surrogate c = false).
    { destruct (Unicode.is_surrogate c) eqn:E; [|reflexivity].
      apply encode_char_None in E. congruence. }
    specialize (IH (S start)).
    destruct (Unicode.encode_from (S start) s) as [rest|i].
    + constructor; assumption.
    + destruct IH as (k & c' & -> & Hk & Hc' & Hbefore).
      exists (S k), c'. repeat split; [lia|exact Hk|exact Hc'|].
      cbn [take]. constructor; assumption.
  - exists 0, c. repeat split; [lia| |constructor].
    apply encode_char_None, Ec.
Qed.

(** On text of code points below 256 [encode] refuses nothing, and gives
    the bytes of [utf8_encode]. *)
Lemma encode_char_ascii c :
  Unicode.encode_char (N_of_ascii c) = Some (utf8_char c).
Proof. destruct c as [[] [] [] [] [] [] [] []]; reflexivity. Qed.

Lemma encode_code_points s :
  forall start,
    Unicode.encode_from start (Unicode.code_points s)
    = Unicode.Return (utf8_encode s).
Proof.
  induction s as [|c s IH]; intros start; [reflexivity|].
  unfold Unicode.code_points in *.
  cbn [list_ascii_of_string map Unicode.encode_from utf8_encode].
  rewrite encode_char_ascii, IH. reflexivity.
Qed.

(** On bytes and on text of code points below 256 the program's
    [double_sha256] returns, and what it returns is [double_sha256] of the
    first part of this file. *)
Lemma double_sha256_agrees (data : pydata) :
  Unicode.double_sha256 (Unicode.of_pydata data)
  = Unicode.Return (double_sha256 data).
Proof.
  with_strategy transparent [double_sha256]
    (unfold Unicode.double_sha256, double_sha256, to_bytes).
  destruct data as [b|s]; cbn [Unicode.of_pydata]; [reflexivity|].
  unfold Unicode.encode. rewrite encode_code_points. reflexivity.
Qed.

(** C6: [double_sha256] gives the hexadecimal text of the SHA-256 digest of
    the SHA-256 digest of its data.  Bytes are taken as they are; text is
    first encoded, and the encoding is UTF-8: the decoder of the standard
    reads the text back from the bytes.  Text with a lone surrogate has no
    encoding: the call then raises [UnicodeEncodeError] at the first one, and
    in no other case.  The values are those of SHA-256 applied twice (the
    known answers for [abc], for [hello] and for the empty input), and a call
    made by the program returns the same value in every state and only
    counts as one call more. *)
Theorem C6_double_sha256 :
  (forall b : list byte,
     Unicode.double_sha256 (Unicode.Bytes b)
     = Unicode.Return (hex (SHA256.digest (SHA256.digest b))))
  /\ (forall s : Unicode.str,
        match Unicode.encode s with
        | Unicode.Return b =>
            Unicode.double_sha256 (Unicode.Str s)
            = Unicode.double_sha256 (Unicode.Bytes b)
        | Unicode.UnicodeEncodeError start =>
            Unicode.double_sha256 (Unicode.Str s)
            = Unicode.UnicodeEncodeError start
        end)
  /\ (forall (s : Unicode.str) (b : list byte),
        Forall (fun c => (c < 0x110000)%N) s ->
        Unicode.encode s = Unicode.Return b ->
        utf8_decode b = Some s)
  /\ (forall s : Unicode.str,
        match Unicode.encode s with
        | Unicode.Return _ =>
            Forall (fun c => Unicode.is_surrogate c = false) s
        | Unicode.UnicodeEncodeError start =>
            exists c,
              s !! start = Some c
              /\ Unicode.is_surrogate c = true
              /\ Forall (fun c => Unicode.is_surrogate c = false) (take start s)
        end)
  /\ hexdigest (utf8_encode "abc")
     = "ba7816bf8f01cfea414140de5dae2223b00361a396177a9cb410ff61f20015ad"%string
  /\ Unicode.double_sha256 (Unicode.Str (Unicode.code_points "hello"))
     = Unicode.Return
         "9595c9df90075148eb06860365df33584b75bff782a510c6cd4883a419833d50"%string
  /\ Unicode.double_sha256 (Unicode.Bytes [])
     = Unicode.Return
         "5df6e0e2761359d30a8275058e299fcc0381534545f55cf43e41983f5d4c9456"%string
  /\ Unicode.encode [0xE9; 0x20AC; 0x1F600]%N
     = Unicode.Return [xc3; xa9; xe2; x82; xac; xf0; x9f; x98; x80]
  /\ Unicode.double_sha256 (Unicode.Str [0x41; 0xD800; 0x42]%N)
     = Unicode.UnicodeEncodeError 1
  /\ (forall data : pydata,
        exists h,
          Unicode.double_sha256 (Unicode.of_pydata data) = Unicode.Return h
          /\ forall w,
               call_double_sha256 data w
               = Ok (h, World (heap w) (S (hash_calls w)) (out w))).
Proof.
  split; [reflexivity|].
  split.
  { intros s. unfold Unicode.double_sha256.
    destruct (Unicode.encode s); reflexivity. }
  split; [intros s b Hs H; exact (encode_from_decode s 0 b Hs H)|].
  split.
  { intros s. pose proof (encode_from_outcome s 0) as H. unfold Unicode.encode.
    destruct (Unicode.encode_from 0 s) as [b|i]; [exact H|].
    destruct H as (k & c & -> & H). exists c. exact H. }
  split; [vm_compute; reflexivity|].
  split; [vm_compute; reflexivity|].
  split; [vm_compute; reflexivity|].
  split; [vm_compute; reflexivity|].
  split; [vm_compute; reflexivity|].
  intros data. exists (double_sha256 data).
  split; [apply double_sha256_agrees|]. intros w. reflexivity.
Qed.

(** ** Missing header, missing proof *)

(** C8: a client that was never given a header answers failure and does
    nothing else than log the error, so nothing is hashed; and with a header,
    a proof that is [None] gives the answer failure, not an exception, again
    with nothing hashed. *)
Theorem C8_no_header_or_no_proof (txid : string)
    (proof : option (list proof_entry)) (hdr : Header) (w : world) :
  verify_transaction SPVClient_init txid proof w
  = Ok (false, World (heap w) (hash_calls w) (out w ++ [LogNoHeader]))
  /\ verify_transaction (mkSPVClient (Some hdr)) txid None w
     = Ok (false, World (heap w) (hash_calls w) (out w ++ [LogNoneProof])).
Proof. split; reflexivity. Qed.

(** ** The empty tree *)

(** C9: the tree has a root exactly when it was built from at least one
    record; built from no record it has no level and no root, and
    [get_proof] answers [None] for every fingerprint. *)
Theorem C9_root_iff_nonempty (w : world) :
  (forall txs, exists t w',
      MerkleTree_init txs w = Ok (t, w') /\ (is_Some (root t) <-> txs <> []))
  /\ exists t w',
       MerkleTree_init [] w = Ok (t, w')
       /\ tree_levels t = []
       /\ root t = None
       /\ forall target, get_proof t target w' = Ok (None, w').
Proof.
  split.
  - intros txs. eexists _, _. split; [apply MerkleTree_init_run|].
    cbn [root]. destruct txs as [|tx txs].
    + cbn. split; [intros [? [=]] | congruence].
    + split; [discriminate|]. intros _.
      destruct (linked_last _ (tree_levels_of_linked (map txid (tx :: txs)) ltac:(discriminate)))
        as [r ->].
      cbn. eauto.
  - eexists _, _. split; [apply MerkleTree_init_run|].
    cbn [tree_levels root map tree_levels_of length seq last mbind option_bind].
    repeat split. intros target.
    eapply (get_proof_absent _ _ []); [reflexivity| |reflexivity].
    split; cbn [txids tree_levels root hd heap]; [|constructor|reflexivity].
    apply list_lookup_middle. reflexivity.
Qed.

(** ** First match, or nothing *)

(** C7: [get_proof] answers [None] for a fingerprint that is not among the
    leaves, and for one that is, the proof of its lowest position (the path
    from that position, one entry a level). *)
Theorem C7_first_match_or_none (txs : list Transaction) (w : world)
    (target : string) :
  exists t w1,
    MerkleTree_init txs w = Ok (t, w1)
    /\ (target ∉ map txid txs -> get_proof t target w1 = Ok (None, w1))
    /\ (forall i,
          map txid txs !! i = Some target ->
          (forall j, j < i -> map txid txs !! j <> Some target) ->
          get_proof t target w1
          = Ok (Some (path (tree_levels_of (map txid txs)) i), w1)).
Proof.
  destruct (MerkleTree_init txs w) as [[t w1]|e] eqn:Hinit;
    [|rewrite MerkleTree_init_run in Hinit; discriminate].
  pose proof (MerkleTree_init_tree_at _ _ _ _ Hinit) as Hat.
  exists t, w1. split; [reflexivity|].
  set (l := map txid txs) in *.
  assert (Hhd : forall x, list_index x (hd [] (tree_levels_of l)) = list_index x l).
  { intros x. destruct (decide (l = [])) as [->|Hne]; [reflexivity|].
    destruct (tree_levels_of_head l Hne) as [rest ->]. apply list_index_stored. }
  split.
  - intros Hnot. eapply get_proof_absent; [reflexivity|exact Hat|].
    rewrite Hhd. apply list_index_None, Hnot.
  - intros i Hi Hmin.
    assert (Hne : l <> []) by (intros E; rewrite E in Hi; discriminate).
    eapply get_proof_present;
      [reflexivity | exact Hat | apply tree_levels_of_linked, Hne |].
    rewrite Hhd.
    destruct (list_index target l) as [k|] eqn:E.
    + destruct (list_index_Some _ _ _ E) as [Hk Hkmin].
      f_equal. destruct (Nat.lt_trichotomy k i) as [Hlt|[Heq|Hgt]]; [|exact Heq|].
      * exfalso. exact (Hmin k Hlt Hk).
      * exfalso. exact (Hkmin i Hgt Hi).
    + apply list_index_None in E. exfalso. apply E.
      apply list_elem_of_lookup. eauto.
Qed.

(** ** The stored levels *)

Lemma stored_padding l : stored l = l ++ padding l.
Proof.
  unfold stored, padding, padded.
  destruct (1 <? length l); cbn [andb]; [|rewrite app_nil_r; reflexivity].
  destruct (negb _); [|rewrite app_nil_r; reflexivity].
  destruct (last l); [reflexivity|rewrite app_nil_r; reflexivity].
Qed.

Lemma padding_length l :
  length (padding l) = if 1 <? length l then length l mod 2 else 0.
Proof.
  pose proof (stored_padding l) as H. apply (f_equal length) in H.
  rewrite length_app in H. unfold stored in H.
  destruct (1 <? length l); [rewrite padded_length in H|]; lia.
Qed.

Lemma linked_lookup levels :
  linked levels ->
  forall k level above,
    levels !! k = Some level -> levels !! S k = Some above ->
    length level mod 2 = 0 /\ above = stored (pair_up level).
Proof.
  induction 1 as [r|level0 above0 He Hpos Hl IH]; intros k level above Hk Hk'.
  - destruct k; discriminate.
  - destruct k as [|k].
    + cbn in Hk, Hk'. injection Hk as <-. injection Hk' as <-. auto.
    + cbn in Hk. change ((stored (pair_up level0) :: above0) !! S k = Some above) in Hk'.
      eapply IH; eassumption.
Qed.

(** The claim as written fails with five records: the level above the six
    stored leaf entries holds four entries, not three. *)
Lemma C10_counterexample :
  exists t w1 level0 level1,
    MerkleTree_init records_abcde empty_world = Ok (t, w1)
    /\ level_entries (heap w1) t 0 = Some level0
    /\ level_entries (heap w1) t 1 = Some level1
    /\ length level0 = 6
    /\ length level1 = 4
    /\ length level1 <> length level0 / 2.
Proof.
  eexists _, _, _, _.
  split; [vm_compute; reflexivity|].
  split; [vm_compute; reflexivity|].
  split; [vm_compute; reflexivity|].
  split; [reflexivity|]. split; [reflexivity|].
  cbn [length]. discriminate.
Qed.

(** C10 (as amended): after construction from a non-empty leaf sequence every
    stored level below the top has even length, the level above a stored
    level holds its pairwise parents (half as many entries) followed by the
    duplicate of the last parent when their number is odd and more than one,
    and the top level has exactly one entry. *)
Theorem C10_stored_levels (txs : list Transaction) (w : world) :
  txs <> [] ->
  exists t w1 levels r,
    MerkleTree_init txs w = Ok (t, w1)
    /\ Forall2 (fun l v => heap w1 !! l = Some v) (tree_levels t) levels
    /\ last levels = Some [r]
    /\ forall k level above,
         levels !! k = Some level -> levels !! S k = Some above ->
         length level mod 2 = 0
         /\ above = pair_up level ++ padding (pair_up level)
         /\ length (pair_up level) = length level / 2
         /\ length above = length level / 2
              + (if 1 <? length level / 2 then (length level / 2) mod 2 else 0).
Proof.
  intros Hne.
  destruct (MerkleTree_init txs w) as [[t w1]|e] eqn:Hinit;
    [|rewrite MerkleTree_init_run in Hinit; discriminate].
  pose proof (MerkleTree_init_tree_at _ _ _ _ Hinit) as Hat.
  assert (Hl : map txid txs <> []) by (destruct txs; [congruence|discriminate]).
  pose proof (tree_levels_of_linked _ Hl) as Hlk.
  destruct (linked_last _ Hlk) as [r Hr].
  exists t, w1, (tree_levels_of (map txid txs)), r.
  split; [reflexivity|]. split; [exact (at_levels _ _ _ Hat)|]. split; [exact Hr|].
  intros k level above Hk Hk'.
  destruct (linked_lookup _ Hlk _ _ _ Hk Hk') as [He ->].
  split; [exact He|]. split; [apply stored_padding|].
  split; [apply pair_up_length|].
  rewrite stored_padding, length_app, padding_length, pair_up_length. reflexivity.
Qed.

Lemma C10_witness :
  records_abcde <> []
  /\ exists t w1 levels r,
       MerkleTree_init records_abcde empty_world = Ok (t, w1)
       /\ Forall2 (fun l v => heap w1 !! l = Some v) (tree_levels t) levels
       /\ last levels = Some [r]
       /\ forall k level above,
            levels !! k = Some level -> levels !! S k = Some above ->
            length level mod 2 = 0
            /\ above = pair_up level ++ padding (pair_up level)
            /\ length (pair_up level) = length level / 2
            /\ length above = length level / 2
                 + (if 1 <? length level / 2 then (length level / 2) mod 2 else 0).
Proof.
  assert (Hne : records_abcde <> []) by discriminate.
  split; [exact Hne|].
  exact (C10_stored_levels records_abcde empty_world Hne).
Defined.

(** ** The last leaf of an odd set *)

(** C2: with three records the self-pairing is not skipped.  The proof
    that [get_proof] returns for the third fingerprint has two entries, not
    one: the third fingerprint itself as sibling on the right, then the
    parent of the first two on the left.  Verifying the third fingerprint
    with it succeeds. *)
Theorem C2_third_of_three_records :
  exists t w1 w3,
    MerkleTree_init records_abc empty_world = Ok (t, w1)
    /\ get_proof t (txid (record "c")) w1
       = Ok (Some [(txid (record "c"), "right"%string);
                   (parent (txid (record "a")) (txid (record "b")), "left"%string)],
             w1)
    /\ verify_transaction (client_of t) (txid (record "c"))
         (Some [(txid (record "c"), "right"%string);
                (parent (txid (record "a")) (txid (record "b")), "left"%string)]) w1
       = Ok (true, w3).
Proof.
  eexists _, _, _.
  split; [vm_compute; reflexivity|].
  split; vm_compute; reflexivity.
Qed.

(** Were the self-pairing left out of that proof, the verifier would reject
    it: the root is the parent of [parent a b] and [parent c c], not of
    [parent a b] and [c]. *)
Lemma self_pairing_left_out_is_rejected :
  exists t w1 w2,
    MerkleTree_init records_abc empty_world = Ok (t, w1)
    /\ verify_transaction (client_of t) (txid (record "c"))
         (Some [(parent (txid (record "a")) (txid (record "b")), "left"%string)]) w1
       = Ok (false, w2).
Proof.
  eexists _, _, _.
  split; [vm_compute; reflexivity|].
  vm_compute. reflexivity.
Qed.

(** On a built tree the branch of [get_proof] that skips a level is never
    taken: whatever the fingerprint, a proof has one entry for each level
    below the top. *)
Lemma no_level_is_skipped txs w t w1 target proof w2 :
  MerkleTree_init txs w = Ok (t, w1) ->
  get_proof t target w1 = Ok (Some proof, w2) ->
  length proof = length (tree_levels t) - 1.
Proof.
  intros Hinit Hget.
  pose proof (MerkleTree_init_tree_at _ _ _ _ Hinit) as Hat.
  set (levels := tree_levels_of (map txid txs)) in *.
  destruct (list_index target (hd [] levels)) as [i|] eqn:E.
  - assert (Hne : map txid txs <> []).
    { intros El. unfold levels in E. rewrite El in E. discriminate. }
    rewrite (get_proof_present _ _ _ _ _ _ eq_refl Hat
               (tree_levels_of_linked _ Hne) E) in Hget.
    injection Hget as <- _.
    rewrite path_length, (Forall2_length _ _ _ (at_levels _ _ _ Hat)). reflexivity.
  - rewrite (get_proof_absent _ _ _ _ _ eq_refl Hat E) in Hget. discriminate.
Qed.

Lemma tree_levels_of_two l :
  1 < length l ->
  exists rest, tree_levels_of l = padded l :: stored (pair_up (padded l)) :: rest.
Proof.
  intros Hlen. destruct l as [|y l']; [cbn in Hlen; lia|].
  unfold tree_levels_of. set (L := y :: l') in *. cbn [stored_levels].
  replace (1 <? length L) with true by (symmetry; apply Nat.ltb_lt; exact Hlen).
  destruct (stored_levels_head (length L) (pair_up (padded L))) as [rest ->]; [|eauto].
  rewrite pair_up_length, padded_length. apply half_lt, Hlen.
Qed.

(** The same for every odd number of records, more than one: the leaf level
    is stored with its padding duplicate, so no level is skipped for the last
    leaf.  Its proof has one entry for each level below the top, the first
    being the leaf's own duplicate as sibling on the right, and verifying the
    leaf with that proof succeeds. *)
Lemma last_leaf_of_odd_set (txs : list Transaction) (w : world)
    (x : string) :
  length txs mod 2 = 1 ->
  1 < length txs ->
  list_index x (map txid txs) = Some (length txs - 1) ->
  exists t w1 proof w3,
    MerkleTree_init txs w = Ok (t, w1)
    /\ get_proof t x w1 = Ok (Some proof, w1)
    /\ length proof = length (tree_levels t) - 1
    /\ head proof = Some (x, "right"%string)
    /\ verify_transaction (client_of t) x (Some proof) w1 = Ok (true, w3).
Proof.
  intros Hodd Hlen Hidx.
  set (l := map txid txs) in *.
  assert (Hn : length l = length txs) by apply length_map.
  destruct (list_index_Some _ _ _ Hidx) as [Hx _].
  destruct (built_tree_verifies txs w _ x (stored_lookup _ _ _ Hx) Hidx)
    as (t & w1 & w3 & Hinit & Hget & Hver & Hplen).
  fold l in Hget, Hver, Hplen.
  exists t, w1, (path (tree_levels_of l) (length txs - 1)), w3.
  repeat split; try assumption.
  assert (Hlast : last l = Some x).
  { rewrite last_lookup, Hn. replace (pred (length txs)) with (length txs - 1) by lia.
    exact Hx. }
  assert (Hpad : padded l = l ++ [x]).
  { unfold padded. rewrite Hn, Hodd, Hlast. reflexivity. }
  assert (Hst : exists rest,
             tree_levels_of l = (l ++ [x]) :: stored (pair_up (l ++ [x])) :: rest).
  { rewrite <- Hpad. apply tree_levels_of_two. lia. }
  destruct Hst as [rest ->].
  change (path ((l ++ [x]) :: stored (pair_up (l ++ [x])) :: rest) (length txs - 1))
    with (sibling_entry (l ++ [x]) (length txs - 1)
          :: path (stored (pair_up (l ++ [x])) :: rest) ((length txs - 1) / 2)).
  cbn [head]. f_equal. unfold sibling_entry.
  assert (Heven : (length txs - 1) mod 2 = 0).
  { pose proof (Nat.div_mod_eq (length txs) 2) as Hdm.
    replace (length txs - 1) with (0 + (length txs / 2) * 2) by lia.
    apply Nat.Div0.mod_add. }
  rewrite Heven. cbn [Nat.eqb]. f_equal.
  apply nth_lookup_Some.
  replace (length txs - 1 + 1) with (length l) by lia.
  apply list_lookup_middle. reflexivity.
Qed.

(** ** Building in place *)

(** With three leaves: the list handed to [_build_tree_levels] comes back
    with a fourth entry, and level 0 of the tree built from three records
    holds four entries, not the three fingerprints of the records. *)
Lemma C3_failing_input :
  (exists levels w1,
     _build_tree_levels 0 (World [["a"; "b"; "c"]%string] 0 []) = Ok (levels, w1)
     /\ head levels = Some 0
     /\ heap w1 !! 0 = Some ["a"; "b"; "c"; "c"]%string
     /\ heap w1 !! 0 <> Some ["a"; "b"; "c"]%string)
  /\ exists t w1 level0,
       MerkleTree_init records_abc empty_world = Ok (t, w1)
       /\ level_entries (heap w1) t 0 = Some level0
       /\ length level0 = 4
       /\ level0 <> map txid records_abc.
Proof.
  split.
  - eexists _, _.
    split; [vm_compute; reflexivity|].
    split; [reflexivity|]. split; [reflexivity|]. discriminate.
  - eexists _, _, _.
    split; [vm_compute; reflexivity|].
    split; [vm_compute; reflexivity|].
    split; [reflexivity|].
    intros E. apply (f_equal length) in E. discriminate.
Qed.

(** C3: the code does not do what the claim asks.  [_build_tree_levels]
    takes no private copy: it builds on the list it is handed.  Level 0 of
    the result is that very list; when it holds an odd number of
    fingerprints, more than one, the duplicate of the last is appended to it
    in place, so that after construction level 0 is the leaf fingerprints in
    input order followed by that duplicate, one entry more than there are
    records; every other list that was there before the call is left as it
    was. *)
Theorem C3_build_in_place (leaves : nat) (l : list string) (w : world) :
  heap w !! leaves = Some l ->
  exists levels w1,
    _build_tree_levels leaves w = Ok (levels, w1)
    /\ head levels = (if decide (l = []) then None else Some leaves)
    /\ heap w1 !! leaves = Some (l ++ padding l)
    /\ forall k, k <> leaves -> k < length (heap w) -> heap w1 !! k = heap w !! k.
Proof.
  intros Hl.
  destruct (decide (l = [])) as [->|Hne].
  - exists [], w. split; [apply build_run_empty, Hl|].
    split; [reflexivity|]. split; [exact Hl|]. reflexivity.
  - destruct (tree_levels_of_head l Hne) as [rest Hst].
    eexists _, _. split; [apply (build_run _ _ _ _ _ Hl Hne Hst)|].
    cbn [head heap].
    pose proof (lookup_lt_Some _ _ _ Hl) as Hlt.
    split; [reflexivity|]. split.
    + rewrite lookup_app_l by (rewrite length_insert; exact Hlt).
      rewrite list_lookup_insert_eq by exact Hlt.
      rewrite stored_padding. reflexivity.
    + intros k Hk Hklt.
      rewrite lookup_app_l by (rewrite length_insert; exact Hklt).
      apply list_lookup_insert_ne. congruence.
Qed.

Lemma C3_witness :
  heap (World [["a"; "b"; "c"]%string] 0 []) !! 0 = Some ["a"; "b"; "c"]%string
  /\ exists levels w1,
       _build_tree_levels 0 (World [["a"; "b"; "c"]%string] 0 []) = Ok (levels, w1)
       /\ head levels = Some 0
       /\ heap w1 !! 0 = Some ["a"; "b"; "c"; "c"]%string
       /\ forall k, k <> 0 -> k < 1 -> heap w1 !! k = [["a"; "b"; "c"]%string] !! k.
Proof.
  split; [reflexivity|].
  exact (C3_build_in_place 0 ["a"; "b"; "c"]%string
           (World [["a"; "b"; "c"]%string] 0 []) eq_refl).
Defined.

(** The same for the tree object: level 0 is [self.txids], and it holds the
    fingerprints of the records followed by the padding. *)
Lemma MerkleTree_level0 txs w :
  exists t w1,
    MerkleTree_init txs w = Ok (t, w1)
    /\ transactions t = txs
    /\ head (tree_levels t) = (if decide (txs = []) then None else Some (txids t))
    /\ heap w1 !! txids t = Some (map txid txs ++ padding (map txid txs))
    /\ forall k, k < length (heap w) -> heap w1 !! k = heap w !! k.
Proof.
  eexists _, _. split; [apply MerkleTree_init_run|].
  cbn [transactions tree_levels txids heap].
  split; [reflexivity|].
  destruct txs as [|tx txs].
  - split; [reflexivity|]. cbn [map]. unfold heap_after_init. split.
    + apply list_lookup_middle. reflexivity.
    + intros k Hk. apply lookup_app_l, Hk.
  - assert (Hne : map txid (tx :: txs) <> []) by discriminate.
    rewrite (heap_after_init_ne _ _ Hne).
    destruct (tree_levels_of_head _ Hne) as [rest ->].
    split; [reflexivity|]. split.
    + rewrite <- stored_padding. apply list_lookup_middle. reflexivity.
    + intros k Hk. apply lookup_app_l, Hk.
Qed.

(** ** Records, blocks and the client's header *)

Example double_sha256_alice :
  txid (record "Alice pays Bob") =
  "ab7e11016e84c8e3f5eeee98e9d6d3958cb7930cabd5b23105837bf646445c2f"%string.
Proof. vm_compute. reflexivity. Qed.

Lemma Transaction_init_run data_str w :
  Transaction_init (PyStr data_str) w =
  Ok (record data_str, World (heap w) (S (hash_calls w)) (out w)).
Proof. reflexivity. Qed.

(** The header of a block carries the root of its tree, and a client that
    stores it is [client_of] that tree. *)
Lemma Block_header_run txs w :
  exists b w1 c w2,
    Block_init txs w = Ok (b, w1)
    /\ MerkleTree_init txs w = Ok (merkle_tree b, w1)
    /\ set_header SPVClient_init (header b) w1 = Ok (c, w2)
    /\ c = client_of (merkle_tree b)
    /\ heap w2 = heap w1 /\ hash_calls w2 = hash_calls w1.
Proof.
  pose proof (MerkleTree_init_run txs w) as Hinit. cbv zeta in Hinit.
  unfold Block_init. rewrite (bind_ok _ _ _ _ _ Hinit).
  eexists _, _, _, _. split; [reflexivity|].
  cbn [merkle_tree header]. split; [exact Hinit|].
  split; [reflexivity|]. split; [reflexivity|]. split; reflexivity.
Qed.

(** * Further properties of the backend *)

(** ** What a successful run went through *)

Lemma bind_inv {A B} (m : M A) (k : A -> M B) w b w' :
  bind m k w = Ok (b, w') ->
  exists a w1, m w = Ok (a, w1) /\ k a w1 = Ok (b, w').
Proof.
  unfold bind. destruct (m w) as [[a w1]|e]; [|discriminate]. eauto.
Qed.

Lemma read_inv l v w w' :
  read l w = Ok (v, w') -> w' = w /\ heap w !! l = Some v.
Proof.
  unfold read. destruct (heap w !! l); [|discriminate]. intros [= <- <-]. auto.
Qed.

Lemma list_len_inv l n w w' :
  list_len l w = Ok (n, w') -> w' = w /\ exists v, heap w !! l = Some v /\ n = length v.
Proof.
  unfold list_len. intros H.
  apply bind_inv in H as (v & w1 & Hr & Hk).
  apply read_inv in Hr as [-> Hl]. injection Hk as <- <-. eauto.
Qed.

Lemma list_get_inv l i x w w' :
  list_get l i w = Ok (x, w') ->
  w' = w /\ exists v, heap w !! l = Some v /\ v !! i = Some x.
Proof.
  unfold list_get. intros H.
  apply bind_inv in H as (v & w1 & Hr & Hk).
  apply read_inv in Hr as [-> Hl].
  destruct (v !! i) eqn:E; [|discriminate]. injection Hk as <- <-. eauto.
Qed.

(** ** [get_proof] only reads *)

(** The loop of [get_proof], on any tree object in any state: it changes
    nothing, adds at most one entry a level, and writes no other side than
    ['left'] and ['right']. *)
Lemma proof_loop_inv tls levels :
  forall i acc w proof w',
    proof_loop tls levels i acc w = Ok (proof, w') ->
    w' = w
    /\ exists new,
         proof = acc ++ new
         /\ length new <= length levels
         /\ Forall (fun e : proof_entry =>
                      e.2 = "left"%string \/ e.2 = "right"%string) new.
Proof.
  induction levels as [|level levels IH]; intros i acc w proof w' H.
  - injection H as <- <-. split; [reflexivity|].
    exists []. rewrite app_nil_r. repeat split; [cbn; lia | constructor].
  - cbn [proof_loop] in H.
    destruct (tls !! level) as [cl|]; [|discriminate].
    apply bind_inv in H as (n & w1 & Hn & H).
    apply list_len_inv in Hn as [-> _].
    destruct (negb (n mod 2 =? 0) && (i =? n - 1)).
    + apply IH in H as (-> & new & -> & Hlen & Hs).
      split; [reflexivity|]. exists new. cbn [length]. repeat split; [lia | exact Hs].
    + destruct (i mod 2 =? 0).
      * apply bind_inv in H as (s & w1 & Hs & H).
        apply list_get_inv in Hs as [-> _].
        apply IH in H as (-> & new & -> & Hlen & Hs).
        split; [reflexivity|]. exists ((s, "right"%string) :: new).
        rewrite <- app_assoc. cbn [length app]. repeat split; [lia|].
        constructor; [right; reflexivity | exact Hs].
      * apply bind_inv in H as (s & w1 & Hs & H).
        apply list_get_inv in Hs as [-> _].
        apply IH in H as (-> & new & -> & Hlen & Hs).
        split; [reflexivity|]. exists ((s, "left"%string) :: new).
        rewrite <- app_assoc. cbn [length app]. repeat split; [lia|].
        constructor; [left; reflexivity | exact Hs].
Qed.

(** X1: whatever the tree object and the state, a call of [get_proof] that
    returns leaves the state as it was: no list is changed, nothing is
    hashed, nothing is logged. *)
Theorem get_proof_reads_only (t : MerkleTree) (target : string) (w w' : world)
    (r : option (list proof_entry)) :
  get_proof t target w = Ok (r, w') -> w' = w.
Proof.
  unfold get_proof. intros H.
  apply bind_inv in H as (ids & w1 & Hr & H).
  apply read_inv in Hr as [-> _].
  destruct (list_index target ids); [|injection H as _ <-; reflexivity].
  apply bind_inv in H as (p & w1 & Hp & H).
  apply proof_loop_inv in Hp as [-> _].
  injection H as _ <-. reflexivity.
Qed.

Lemma get_proof_reads_only_witness :
  get_proof odd_tree "c" odd_world = Ok (Some [("p", "left")]%string, odd_world)
  /\ odd_world = odd_world.
Proof.
  assert (H : get_proof odd_tree "c" odd_world
              = Ok (Some [("p", "left")]%string, odd_world)) by reflexivity.
  split; [exact H|].
  exact (get_proof_reads_only odd_tree "c" odd_world odd_world _ H).
Defined.



(** ** What a verification costs and logs *)

Lemma verify_log_length proof h n : length (verify_log proof h n) = 2 * length proof.
Proof.
  revert h n. induction proof as [|e proof IH]; intros h n; [reflexivity|].
  cbn [verify_log length]. rewrite IH. lia.
Qed.

(** X3: with a header, and with a fingerprint and a proof whose texts have
    code points below 256, as the texts of all fingerprints have,
    [verify_transaction] returns an answer; it leaves every list as it was,
    calls [double_sha256] exactly once for each proof entry, and logs the
    start line, two lines for each entry and four closing lines, after what
    was logged before.  Other text is outside this statement: on a lone
    surrogate [double_sha256] raises (lemma [encode_from_outcome]). *)
Theorem verify_transaction_effects (hdr : Header) (txid : string)
    (proof : list proof_entry) (w : world) :
  exists b w' lines,
    verify_transaction (mkSPVClient (Some hdr)) txid (Some proof) w = Ok (b, w')
    /\ heap w' = heap w
    /\ hash_calls w' = hash_calls w + length proof
    /\ out w' = out w ++ LogStart (substring 0 10 txid) :: lines
    /\ length lines = 2 * length proof + 4.
Proof.
  unfold verify_transaction. cbn [block_header].
  unfold bind at 1. unfold log at 1.
  step_with (verify_loop_run _ _ _ _).
  unfold bind at 1. unfold log at 1.
  unfold bind at 1. unfold log at 1.
  cbn [heap hash_calls out].
  destruct (decide (Some (climb proof txid) = merkle_root hdr)).
  - eexists _, _, (verify_log proof txid 1 ++ [_; _; _; _]).
    split; [reflexivity|]. cbn [heap hash_calls out].
    split; [reflexivity|]. split; [reflexivity|]. split.
    + rewrite <- !app_assoc. reflexivity.
    + rewrite length_app, verify_log_length. reflexivity.
  - eexists _, _, (verify_log proof txid 1 ++ [_; _; _; _]).
    split; [reflexivity|]. cbn [heap hash_calls out].
    split; [reflexivity|]. split; [reflexivity|]. split.
    + rewrite <- !app_assoc. reflexivity.
    + rewrite length_app, verify_log_length. reflexivity.
Qed.

(** ** The header of an empty block *)

(** X4: a block built from no transaction has a header whose root is
    [None]; a client accepts that header, and then answers failure for
    every fingerprint, with every proof or none, whose texts have code
    points below 256 (the texts of all fingerprints have): no hash of such
    texts equals [None], and hashing them raises nothing. *)
Theorem empty_block_rejects_all (w : world) (txid : string)
    (proof : option (list proof_entry)) :
  exists b w1 c w2 w3,
    Block_init [] w = Ok (b, w1)
    /\ merkle_root (header b) = None
    /\ set_header SPVClient_init (header b) w1 = Ok (c, w2)
    /\ block_header c = Some (header b)
    /\ verify_transaction c txid proof w2 = Ok (false, w3).
Proof.
  pose proof (MerkleTree_init_run [] w) as Hinit. cbv zeta in Hinit.
  cbn [map tree_levels_of length seq last mbind option_bind] in Hinit.
  assert (Hb : exists w1,
             Block_init [] w
             = Ok (mkBlock [] (mkMerkleTree [] (length (heap w)) [] None)
                     (mkHeader None), w1)).
  { eexists. unfold Block_init. step_with Hinit. reflexivity. }
  destruct Hb as [w1 Hb].
  exists (mkBlock [] (mkMerkleTree [] (length (heap w)) [] None) (mkHeader None)), w1.
  cbn [header].
  set (w2 := World (heap w1) (hash_calls w1)
               (out w1 ++ [LogHeaderStored; LogHeaderRoot None])).
  assert (Hs : set_header SPVClient_init (mkHeader None) w1
               = Ok (mkSPVClient (Some (mkHeader None)), w2)).
  { unfold set_header, bind, log, ret, w2. cbn [heap hash_calls out merkle_root].
    rewrite <- app_assoc. reflexivity. }
  exists (mkSPVClient (Some (mkHeader None))), w2.
  destruct proof as [proof|].
  - destruct (verify_transaction_run (mkHeader None) txid proof w2) as (w3 & Hv & _).
    exists w3. split; [exact Hb|]. split; [reflexivity|].
    split; [exact Hs|]. split; [reflexivity|].
    rewrite Hv. cbn [merkle_root].
    rewrite bool_decide_eq_false_2 by discriminate. reflexivity.
  - eexists. split; [exact Hb|]. split; [reflexivity|].
    split; [exact Hs|]. split; reflexivity.
Qed.

(** ** Trees side by side *)

Lemma tree_at_app h h' t levels : tree_at h t levels -> tree_at (h ++ h') t levels.
Proof.
  intros [Hids HF Hroot]. split; [|clear Hids Hroot|exact Hroot].
  - apply lookup_app_l_Some, Hids.
  - induction HF as [|l v ls vs Hl _ IH]; [constructor|].
    constructor; [|exact IH]. apply lookup_app_l_Some, Hl.
Qed.

Lemma get_proof_on_levels h t levels w :
  heap w = h ->
  tree_at h t levels ->
  levels = [] \/ linked levels ->
  forall target,
    get_proof t target w
    = Ok (path levels <$> list_index target (hd [] levels), w).
Proof.
  intros Hh Hat Hlk target.
  destruct (list_index target (hd [] levels)) as [i|] eqn:E.
  - destruct Hlk as [-> | Hlk]; [discriminate|].
    cbn [fmap option_fmap option_map].
    eapply get_proof_present; eassumption.
  - eapply get_proof_absent; eassumption.
Qed.

Lemma tree_levels_of_shape l : tree_levels_of l = [] \/ linked (tree_levels_of l).
Proof.
  destruct (decide (l = [])) as [-> | Hne]; [left; reflexivity|].
  right. apply tree_levels_of_linked, Hne.
Qed.

Lemma heap_after_init_app h l : exists h', heap_after_init h l = h ++ h'.
Proof. unfold heap_after_init. eauto. Qed.

(** X5: building another tree afterwards does not disturb a tree: from
    every later state [get_proof] returns for every fingerprint what it
    returned before, the second tree's lists being new ones. *)
Theorem second_tree_leaves_first (txs1 txs2 : list Transaction) (w : world)
    (target : string) :
  exists t1 w1 t2 w2 r,
    MerkleTree_init txs1 w = Ok (t1, w1)
    /\ MerkleTree_init txs2 w1 = Ok (t2, w2)
    /\ get_proof t1 target w1 = Ok (r, w1)
    /\ get_proof t1 target w2 = Ok (r, w2)
    /\ forall k, k < length (heap w1) -> heap w2 !! k = heap w1 !! k.
Proof.
  destruct (MerkleTree_init txs1 w) as [[t1 w1]|e] eqn:H1;
    [|rewrite MerkleTree_init_run in H1; discriminate].
  destruct (MerkleTree_init txs2 w1) as [[t2 w2]|e] eqn:H2;
    [|rewrite MerkleTree_init_run in H2; discriminate].
  pose proof (MerkleTree_init_tree_at _ _ _ _ H1) as Hat.
  assert (Hext : exists h', heap w2 = heap w1 ++ h').
  { rewrite MerkleTree_init_run in H2. injection H2 as _ <-.
    apply heap_after_init_app. }
  destruct Hext as [h' Hext].
  exists t1, w1, t2, w2,
    (path (tree_levels_of (map txid txs1))
       <$> list_index target (hd [] (tree_levels_of (map txid txs1)))).
  split; [reflexivity|]. split; [exact H2|]. split; [|split].
  - apply (get_proof_on_levels _ _ _ _ eq_refl Hat (tree_levels_of_shape _)).
  - refine (get_proof_on_levels _ _ _ _ Hext (tree_at_app _ h' _ _ Hat)
              (tree_levels_of_shape _) target).
  - intros k Hk. rewrite Hext. apply lookup_app_l, Hk.
Qed.

(** ** The form of a fingerprint *)

Lemma digest_length data : length (SHA256.digest data) = 32.
Proof.
  unfold SHA256.digest.
  destruct (fold_left SHA256.compress _ _) as [[[[[[[a b] c] d] e] f] g] h].
  reflexivity.
Qed.

Lemma hex_digit_of_byte b :
  is_hex_digit (hex_digit (SHA256.Z_of_byte b / 16)) = true
  /\ is_hex_digit (hex_digit (SHA256.Z_of_byte b mod 16)) = true.
Proof. destruct b; split; reflexivity. Qed.

Lemma hex_form bs :
  String.length (hex bs) = 2 * length bs
  /\ all_chars is_hex_digit (hex bs) = true.
Proof.
  induction bs as [|b bs [IHl IHc]]; [split; reflexivity|].
  cbn [hex String.length all_chars length].
  destruct (hex_digit_of_byte b) as [-> ->]. rewrite IHl, IHc.
  split; [lia|reflexivity].
Qed.


(** ** How many levels, how many hashes *)

Lemma half_twice n : 2 * ((n + n mod 2) / 2) = n + n mod 2.
Proof.
  pose proof (Nat.mod_upper_bound n 2 ltac:(lia)).
  pose proof (Nat.div_mod_eq n 2).
  pose proof (Nat.div_mod_eq (n + n mod 2) 2).
  assert ((n + n mod 2) mod 2 = 0); [|lia].
  destruct (n mod 2) as [|[|?]] eqn:E; [rewrite Nat.add_0_r; exact E| |lia].
  replace (n + 1) with (0 + (n / 2 + 1) * 2) by lia.
  apply Nat.Div0.mod_add.
Qed.

Lemma stored_levels_count fuel :
  forall l, 0 < length l -> length l < fuel ->
  exists d,
    length (stored_levels fuel l) = S d
    /\ length l <= 2 ^ d
    /\ (1 < length l -> 2 ^ (d - 1) < length l)
    /\ (length l <= 1 -> d = 0).
Proof.
  induction fuel as [|fuel IH]; intros l Hpos Hfuel; [lia|].
  cbn [stored_levels].
  destruct (1 <? length l) eqn:Hn.
  - apply Nat.ltb_lt in Hn.
    set (P := pair_up (padded l)).
    assert (Hc : 2 * length P = length l + length l mod 2).
    { unfold P. rewrite pair_up_length, padded_length. apply half_twice. }
    pose proof (Nat.mod_upper_bound (length l) 2 ltac:(lia)) as Hm.
    destruct (IH P ltac:(lia) ltac:(lia)) as (d & Hd & Hle & Hlt & Hone).
    exists (S d). cbn [length]. rewrite Hd.
    split; [reflexivity|]. rewrite Nat.pow_succ_r'.
    split; [lia|]. split; [|lia]. intros _.
    cbn [Nat.sub]. rewrite Nat.sub_0_r.
    destruct d as [|d].
    + cbn in *. lia.
    + assert (1 < length P) by (destruct (le_lt_dec (length P) 1) as [Hs|]; [|assumption];
        specialize (Hone Hs); discriminate).
      specialize (Hlt ltac:(lia)). cbn [Nat.sub] in Hlt. rewrite Nat.sub_0_r in Hlt.
      rewrite Nat.pow_succ_r'. lia.
  - apply Nat.ltb_ge in Hn. exists 0. cbn. repeat split; lia.
Qed.

Lemma build_hashes_bounds fuel :
  forall l, 0 < length l -> length l < fuel ->
  length l - 1 <= build_hashes fuel l <= 2 * (length l - 1).
Proof.
  induction fuel as [|fuel IH]; intros l Hpos Hfuel; [lia|].
  cbn [build_hashes].
  destruct (1 <? length l) eqn:Hn; [|apply Nat.ltb_ge in Hn; lia].
  apply Nat.ltb_lt in Hn.
  set (P := pair_up (padded l)).
  assert (Hc : 2 * length P = length l + length l mod 2).
  { unfold P. rewrite pair_up_length, padded_length. apply half_twice. }
  assert (Hh : length (padded l) / 2 = length P)
    by (unfold P; rewrite pair_up_length; reflexivity).
  pose proof (Nat.mod_upper_bound (length l) 2 ltac:(lia)) as Hm.
  specialize (IH P ltac:(lia) ltac:(lia)).
  rewrite Hh. lia.
Qed.

(** X7: a tree built from n records, n at least one, has ⌈log2 n⌉ levels
    above the leaves: n is at most 2 to the number of those levels and, past
    one record, more than 2 to that number less one.  Every proof it returns
    has exactly that many entries. *)
Theorem levels_are_logarithmic (txs : list Transaction) (w : world) :
  txs <> [] ->
  exists t w1 d,
    MerkleTree_init txs w = Ok (t, w1)
    /\ length (tree_levels t) = S d
    /\ length txs <= 2 ^ d
    /\ (1 < length txs -> 2 ^ (d - 1) < length txs)
    /\ forall target proof w2,
         get_proof t target w1 = Ok (Some proof, w2) -> length proof = d.
Proof.
  intros Hne.
  destruct (MerkleTree_init txs w) as [[t w1]|e] eqn:Hinit;
    [|rewrite MerkleTree_init_run in Hinit; discriminate].
  pose proof (MerkleTree_init_tree_at _ _ _ _ Hinit) as Hat.
  pose proof (Forall2_length _ _ _ (at_levels _ _ _ Hat)) as Hlen.
  assert (Hn : length (map txid txs) = length txs) by apply length_map.
  destruct txs as [|tx txs]; [congruence|].
  destruct (stored_levels_count (S (length (map txid (tx :: txs)))) (map txid (tx :: txs)))
    as (d & Hd & Hle & Hlt & _); [cbn; lia | lia |].
  change (stored_levels _ _) with (tree_levels_of (map txid (tx :: txs))) in Hd.
  exists t, w1, d. rewrite <- Hn.
  split; [reflexivity|]. split; [congruence|]. split; [exact Hle|]. split; [exact Hlt|].
  intros target proof w2 Hget.
  rewrite (no_level_is_skipped _ _ _ _ _ _ _ Hinit Hget), Hlen, Hd. lia.
Qed.

Lemma levels_are_logarithmic_witness :
  records_abcde <> []
  /\ exists t w1 d,
       MerkleTree_init records_abcde empty_world = Ok (t, w1)
       /\ length (tree_levels t) = S d
       /\ length records_abcde <= 2 ^ d
       /\ (1 < length records_abcde -> 2 ^ (d - 1) < length records_abcde)
       /\ forall target proof w2,
            get_proof t target w1 = Ok (Some proof, w2) -> length proof = d.
Proof.
  assert (Hne : records_abcde <> []) by discriminate.
  split; [exact Hne|].
  exact (levels_are_logarithmic records_abcde empty_world Hne).
Defined.

(** X8: building the tree of n records, n at least one, calls
    [double_sha256] at least n - 1 times and at most 2 (n - 1) times. *)
Theorem build_hash_count (txs : list Transaction) (w : world) :
  txs <> [] ->
  exists t w1,
    MerkleTree_init txs w = Ok (t, w1)
    /\ hash_calls w + (length txs - 1) <= hash_calls w1
    /\ hash_calls w1 <= hash_calls w + 2 * (length txs - 1).
Proof.
  intros Hne. eexists _, _. split; [apply MerkleTree_init_run|].
  cbn [hash_calls].
  destruct txs as [|tx txs]; [congruence|].
  pose proof (build_hashes_bounds (S (length (map txid (tx :: txs))))
                (map txid (tx :: txs)) ltac:(cbn; lia) ltac:(lia)) as Hb.
  remember (build_hashes _ _) as h eqn:Eh. clear Eh.
  rewrite length_map in Hb. cbn [map]. lia.
Qed.

Lemma build_hash_count_witness :
  records_abcde <> []
  /\ exists t w1,
       MerkleTree_init records_abcde empty_world = Ok (t, w1)
       /\ hash_calls empty_world + (length records_abcde - 1) <= hash_calls w1
       /\ hash_calls w1 <= hash_calls empty_world + 2 * (length records_abcde - 1).
Proof.
  assert (Hne : records_abcde <> []) by discriminate.
  split; [exact Hne|].
  exact (build_hash_count records_abcde empty_world Hne).
Defined.

(** ** Repeating the last record of an odd list *)

Lemma stored_levels_fuel f1 :
  forall f2 l, length l < f1 -> length l < f2 ->
  stored_levels f1 l = stored_levels f2 l.
Proof.
  induction f1 as [|f1 IH]; intros f2 l H1 H2; [lia|].
  destruct f2 as [|f2]; [lia|].
  cbn [stored_levels].
  destruct (1 <? length l) eqn:Hn; [|reflexivity].
  apply Nat.ltb_lt in Hn. f_equal.
  assert (Hc : 2 * length (pair_up (padded l)) = length l + length l mod 2).
  { rewrite pair_up_length, padded_length. apply half_twice. }
  pose proof (Nat.mod_upper_bound (length l) 2 ltac:(lia)) as Hm.
  apply IH; lia.
Qed.

Lemma tree_levels_of_repeat_last l x :
  length l mod 2 = 1 -> 1 < length l -> last l = Some x ->
  tree_levels_of (l ++ [x]) = tree_levels_of l.
Proof.
  intros Hodd Hlen Hlast.
  assert (Hpad : padded l = l ++ [x]).
  { unfold padded. rewrite Hodd, Hlast. reflexivity. }
  assert (Hlen' : length (l ++ [x]) = S (length l))
    by (rewrite length_app; cbn; lia).
  assert (Heven : length (l ++ [x]) mod 2 = 0).
  { rewrite <- Hpad. apply padded_even. }
  assert (Hpad' : padded (l ++ [x]) = l ++ [x]).
  { unfold padded. rewrite Heven. reflexivity. }
  assert (Hc : 2 * length (pair_up (l ++ [x])) = S (length l)).
  { rewrite pair_up_length, Hlen'.
    pose proof (Nat.div_mod_eq (S (length l)) 2). rewrite <- Hlen', Heven in H.
    rewrite Hlen' in H. lia. }
  destruct l as [|y l']; [cbn in Hlen; lia|].
  set (l := y :: l') in *.
  unfold tree_levels_of.
  change ((y :: l') ++ [x]) with (l ++ [x]).
  destruct (l ++ [x]) as [|z r] eqn:E; [cbn in Hlen'; lia|]. rewrite <- E in *.
  cbn [stored_levels].
  replace (1 <? length (l ++ [x])) with true by (symmetry; apply Nat.ltb_lt; lia).
  replace (1 <? length l) with true by (symmetry; apply Nat.ltb_lt; lia).
  rewrite Hpad, Hpad'. f_equal.
  apply stored_levels_fuel; lia.
Qed.

Lemma level_entries_at h t levels k :
  tree_at h t levels -> level_entries h t k = levels !! k.
Proof.
  intros [_ HF _]. unfold level_entries.
  revert k. induction HF as [|l v ls vs Hl _ IH]; intros k; [reflexivity|].
  destruct k as [|k]; [exact Hl|]. apply IH.
Qed.

(** X9: when the number of records is odd and more than one, the list with
    its last record once more at the end gives the same tree as the list
    itself: the same root and the same entries at every level. *)
Theorem repeated_last_record_same_root (txs : list Transaction)
    (tx : Transaction) (w w' : world) :
  length txs mod 2 = 1 ->
  1 < length txs ->
  last txs = Some tx ->
  exists t1 w1 t2 w2,
    MerkleTree_init txs w = Ok (t1, w1)
    /\ MerkleTree_init (txs ++ [tx]) w' = Ok (t2, w2)
    /\ root t1 = root t2
    /\ forall k, level_entries (heap w1) t1 k = level_entries (heap w2) t2 k.
Proof.
  intros Hodd Hlen Hlast.
  destruct (MerkleTree_init txs w) as [[t1 w1]|e] eqn:H1;
    [|rewrite MerkleTree_init_run in H1; discriminate].
  destruct (MerkleTree_init (txs ++ [tx]) w') as [[t2 w2]|e] eqn:H2;
    [|rewrite MerkleTree_init_run in H2; discriminate].
  pose proof (MerkleTree_init_tree_at _ _ _ _ H1) as Hat1.
  pose proof (MerkleTree_init_tree_at _ _ _ _ H2) as Hat2.
  rewrite map_app in Hat2. cbn [map] in Hat2.
  rewrite tree_levels_of_repeat_last in Hat2.
  - exists t1, w1, t2, w2. split; [reflexivity|]. split; [reflexivity|]. split.
    + rewrite (at_root _ _ _ Hat1), (at_root _ _ _ Hat2). reflexivity.
    + intros k.
      rewrite (level_entries_at _ _ _ _ Hat1), (level_entries_at _ _ _ _ Hat2).
      reflexivity.
  - rewrite length_map. exact Hodd.
  - rewrite length_map. exact Hlen.
  - change (map txid txs) with (txid <$> txs). rewrite fmap_last, Hlast. reflexivity.
Qed.

Lemma repeated_last_record_same_root_witness :
  (length records_abc mod 2 = 1
   /\ 1 < length records_abc
   /\ last records_abc = Some (record "c"))
  /\ exists t1 w1 t2 w2,
       MerkleTree_init records_abc empty_world = Ok (t1, w1)
       /\ MerkleTree_init (records_abc ++ [record "c"]) empty_world = Ok (t2, w2)
       /\ root t1 = root t2
       /\ forall k, level_entries (heap w1) t1 k = level_entries (heap w2) t2 k.
Proof.
  assert (H1 : length records_abc mod 2 = 1) by reflexivity.
  assert (H2 : 1 < length records_abc) by (cbn; lia).
  assert (H3 : last records_abc = Some (record "c")) by reflexivity.
  split; [auto|].
  exact (repeated_last_record_same_root records_abc (record "c")
           empty_world empty_world H1 H2 H3).
Defined.

(** * Properties of FullNode and of the front end *)

(** ** Running the front end *)

Lemma app_bind_done {A B} (m : App A) (k : A -> App B) s a s' :
  m s = Done a s' -> (m ≫= k) s = k a s'.
Proof. unfold mbind, app_bind. intros ->. reflexivity. Qed.

Lemma app_bind_inv {A B} (m : App A) (k : A -> App B) s b s'' :
  (m ≫= k) s = Done b s'' ->
  exists a s', m s = Done a s' /\ k a s' = Done b s''.
Proof.
  unfold mbind, app_bind. destruct (m s) as [a s'|e s']; [eauto|discriminate].
Qed.

Lemma lift_done {A} (m : M A) s a w' :
  m (app_world s) = Ok (a, w') ->
  lift m s = Done a (mkApp w' (session s) (stdout s)).
Proof. unfold lift. intros ->. reflexivity. Qed.

Lemma lift_inv {A} (m : M A) s a s' :
  lift m s = Done a s' ->
  exists w', m (app_world s) = Ok (a, w') /\ s' = mkApp w' (session s) (stdout s).
Proof.
  unfold lift. destruct (m (app_world s)) as [[a' w']|e]; [|discriminate].
  intros [= <- <-]. eauto.
Qed.

Tactic Notation "app_step" uconstr(H) := rewrite (app_bind_done _ _ _ _ _ H).

Lemma get_proof_state t target w r w' :
  get_proof t target w = Ok (r, w') -> w' = w.
Proof.
  unfold get_proof. intros H.
  apply bind_inv in H as (ids & w1 & Hr & H).
  apply read_inv in Hr as [-> _].
  destruct (list_index target ids); [|injection H as _ <-; reflexivity].
  apply bind_inv in H as (p & w1 & Hp & H).
  apply proof_loop_inv in Hp as [-> _].
  injection H as _ <-. reflexivity.
Qed.

(** ** FullNode.get_merkle_proof *)

Lemma get_merkle_proof_run (self : FullNode) (txid : string)
    (s : app_state) (r : option (list proof_entry)) (w' : world) :
  get_proof (merkle_tree (block self)) txid (app_world s) = Ok (r, w') ->
  get_merkle_proof self txid s
  = Done r
      (mkApp (app_world s) (session s)
         (stdout s ++
            [PrintRequest (substring 0 10 txid);
             match r with
             | Some (e :: proof) => PrintProofFound (S (length proof))
             | _ => PrintNotFound
             end])).
Proof.
  intros Hget.
  pose proof (get_proof_state _ _ _ _ _ Hget) as ->.
  unfold get_merkle_proof.
  unfold mbind at 1, app_bind at 1. unfold print at 1.
  app_step (lift_done _ (mkApp (app_world s) (session s) _) _ _ Hget).
  cbn [app_world session stdout].
  destruct r as [[|e proof]|]; unfold mbind, app_bind, print, mret, app_ret;
    cbn [app_world session stdout length]; rewrite <- app_assoc; reflexivity.
Qed.

(** X10: [get_merkle_proof] hands back what [get_proof] of the block's tree
    returns, [None] included, and changes nothing but the standard output,
    where it prints the request and then either "Proof found" with the
    number of entries, when the proof has at least one entry, or "TXID not
    found", when the answer is [None] or the empty proof.  An exception of
    [get_proof] goes through, after the request was printed. *)
Theorem get_merkle_proof_passes_on (self : FullNode) (txid : string)
    (s : app_state) :
  match get_proof (merkle_tree (block self)) txid (app_world s) with
  | Ok (r, _) =>
      get_merkle_proof self txid s
      = Done r
          (mkApp (app_world s) (session s)
             (stdout s ++
                [PrintRequest (substring 0 10 txid);
                 match r with
                 | Some (e :: proof) => PrintProofFound (S (length proof))
                 | _ => PrintNotFound
                 end]))
  | Raise e =>
      get_merkle_proof self txid s
      = Failed (Exn e)
          (mkApp (app_world s) (session s)
             (stdout s ++ [PrintRequest (substring 0 10 txid)]))
  end.
Proof.
  destruct (get_proof (merkle_tree (block self)) txid (app_world s))
    as [[r w']|e] eqn:Hget.
  - exact (get_merkle_proof_run self txid s r w' Hget).
  - unfold get_merkle_proof, mbind, app_bind, print, lift.
    cbn [app_world session stdout]. rewrite Hget. reflexivity.
Qed.

(** X11: in a block of one record the full node, asked for the proof of
    that record, prints "TXID not found in my block." and yet returns the
    proof, the empty one, with which the fingerprint verifies against the
    header of the block. *)
Theorem single_record_reported_not_found (tx : Transaction) (s : app_state) :
  exists b s1 s2 c w3,
    lift (Block_init [tx]) s = Done b s1
    /\ get_merkle_proof (mkFullNode b) (txid tx) s1 = Done (Some []) s2
    /\ stdout s2 = stdout s ++ [PrintRequest (substring 0 10 (txid tx)); PrintNotFound]
    /\ set_header SPVClient_init (header b) (app_world s2) = Ok (c, w3)
    /\ exists w4, verify_transaction c (txid tx) (Some []) w3 = Ok (true, w4).
Proof.
  destruct (Block_header_run [tx] (app_world s))
    as (b & w1 & c & w2 & Hb & Hinit & Hset & -> & Hh & _).
  destruct (built_tree_verifies [tx] (app_world s) 0 (txid tx))
    as (t & w1' & w3 & Hinit' & Hget & Hver & _).
  { reflexivity. }
  { cbn [map list_index]. rewrite decide_True by reflexivity. reflexivity. }
  rewrite Hinit in Hinit'. injection Hinit' as <- <-.
  change (path (tree_levels_of (map txid [tx])) 0) with (@nil proof_entry) in *.
  eexists b, (mkApp w1 (session s) (stdout s)), _, (client_of (merkle_tree b)), w2.
  split; [apply lift_done, Hb|].
  split; [apply (get_merkle_proof_run (mkFullNode b) (txid tx)
                   (mkApp w1 (session s) (stdout s)) (Some []) w1 Hget)|].
  cbn [stdout app_world].
  split; [reflexivity|]. split; [exact Hset|].
  destruct (verify_transaction_run (mkHeader (root (merkle_tree b))) (txid tx) [] w1)
    as (w4 & Hv & _).
  unfold client_of in Hver. rewrite Hver in Hv. injection Hv as Hb' _.
  destruct (verify_transaction_run (mkHeader (root (merkle_tree b))) (txid tx) [] w2)
    as (w5 & Hv2 & _).
  exists w5. unfold client_of. rewrite Hv2. f_equal. f_equal. symmetry. exact Hb'.
Qed.

(** ** verify_with_proof *)

Lemma after_verifying_0 s : after_verifying s 0 [] = s.
Proof.
  unfold after_verifying. destruct s as [[h c o] [fn cl txs lg st] so].
  cbn. rewrite Nat.add_0_r, app_nil_r. reflexivity.
Qed.

Lemma after_verifying_log s n lines line :
  log_message (MsgSPV line) (after_verifying s n lines)
  = Done tt (after_verifying s n (lines ++ [line])).
Proof.
  unfold log_message, after_verifying. cbn.
  rewrite map_app, app_assoc. reflexivity.
Qed.

Lemma after_verifying_hash s n lines d :
  lift (call_double_sha256 d) (after_verifying s n lines)
  = Done (double_sha256 d) (after_verifying s (S n) lines).
Proof.
  unfold lift, call_double_sha256, after_verifying. cbn.
  rewrite Nat.add_succ_r. reflexivity.
Qed.

Lemma app_verify_loop_run proof :
  forall calculated_hash step_num s n lines,
    app_verify_loop proof calculated_hash step_num (after_verifying s n lines)
    = Done (climb proof calculated_hash)
        (after_verifying s (n + length proof)
           (lines ++ verify_log proof calculated_hash step_num)).
Proof.
  induction proof as [|[sibling_hash side] proof IH]; intros c k s n lines.
  - cbn. rewrite Nat.add_0_r, app_nil_r. reflexivity.
  - cbn [app_verify_loop verify_log length].
    app_step (after_verifying_log _ _ _ _).
    app_step (after_verifying_hash _ _ _ _).
    app_step (after_verifying_log _ _ _ _).
    rewrite IH, climb_cons. unfold climb_step at 1 2 3. cbn [fst snd].
    rewrite <- !app_assoc. cbn [app].
    replace (S n + length proof) with (n + S (length proof)) by lia.
    destruct (decide (side = "right"%string)); reflexivity.
Qed.
Lemma log_first s line :
  log_message (MsgSPV line) s = Done tt (after_verifying s 0 [line]).
Proof.
  unfold log_message, after_verifying.
  destruct s as [[h c o] [fn cl txs lg st] so]. cbn.
  rewrite Nat.add_0_r. reflexivity.
Qed.

Lemma verify_transaction_outcome c txid proof w :
  verify_transaction c txid proof w
  = Ok ((verify_outcome c txid proof).1.1,
        World (heap w) (hash_calls w + (verify_outcome c txid proof).1.2)
          (out w ++ (verify_outcome c txid proof).2)).
Proof.
  unfold verify_transaction, verify_outcome.
  destruct (block_header c) as [hdr|].
  - destruct proof as [proof|].
    + unfold bind at 1. unfold log at 1.
      step_with (verify_loop_run _ _ _ _).
      unfold bind at 1. unfold log at 1.
      unfold bind at 1. unfold log at 1.
      cbn [heap hash_calls out fst snd].
      destruct (decide (Some (climb proof txid) = merkle_root hdr)).
      * rewrite bool_decide_eq_true_2 by assumption.
        unfold bind, log, ret. cbn [heap hash_calls out fst snd].
        rewrite <- !app_assoc. reflexivity.
      * rewrite bool_decide_eq_false_2 by assumption.
        unfold bind, log, ret. cbn [heap hash_calls out fst snd].
        rewrite <- !app_assoc. reflexivity.
    + unfold bind, log, ret. cbn. rewrite Nat.add_0_r. reflexivity.
  - unfold bind, log, ret. cbn. rewrite Nat.add_0_r. reflexivity.
Qed.

Lemma verify_with_proof_outcome s txid proof :
  verify_with_proof txid proof s
  = Done (verify_outcome (spv_client (session s)) txid proof).1.1
      (after_verifying s (verify_outcome (spv_client (session s)) txid proof).1.2
         (verify_outcome (spv_client (session s)) txid proof).2).
Proof.
  unfold verify_with_proof, verify_outcome.
  unfold mbind at 1, app_bind at 1. unfold get_session at 1.
  destruct (block_header (spv_client (session s))) as [hdr|] eqn:Hh.
  - destruct proof as [proof|].
    + app_step (log_first _ _).
      app_step (app_verify_loop_run _ _ _ _ _ _).
      app_step (after_verifying_log _ _ _ _).
      unfold mbind at 1, app_bind at 1. unfold get_session at 1.
      cbn [session after_verifying spv_client]. rewrite Hh.
      fold (after_verifying s (0 + length proof)
              (([LogStart (substring 0 10 txid)]
                ++ verify_log proof txid 1) ++ [LogFinalRoot (climb proof txid)])).
      app_step (after_verifying_log _ _ _ _).
      cbn [fst snd].
      destruct (decide (Some (climb proof txid) = merkle_root hdr)).
      * rewrite bool_decide_eq_true_2 by assumption.
        app_step (after_verifying_log _ _ _ _).
        app_step (after_verifying_log _ _ _ _).
        cbn [app]. rewrite <- !app_assoc. reflexivity.
      * rewrite bool_decide_eq_false_2 by assumption.
        app_step (after_verifying_log _ _ _ _).
        app_step (after_verifying_log _ _ _ _).
        cbn [app]. rewrite <- !app_assoc. reflexivity.
    + app_step (log_first _ _). reflexivity.
  - app_step (log_first _ _). reflexivity.
Qed.

(** X12: for a fingerprint and a proof whose texts have code points below
    256, as the texts of all fingerprints have, [verify_with_proof] of the
    front end does what [SPVClient.verify_transaction] does with the
    session's client: both return, with the same answer; it calls
    [double_sha256] as many times and appends to [log_messages] the very
    lines the client logs, and it touches nothing else of the session. *)
Theorem verify_with_proof_agrees (s : app_state) (txid : string)
    (proof : option (list proof_entry)) :
  exists b n lines,
    verify_transaction (spv_client (session s)) txid proof (app_world s)
    = Ok (b, World (heap (app_world s)) (hash_calls (app_world s) + n)
               (out (app_world s) ++ lines))
    /\ verify_with_proof txid proof s = Done b (after_verifying s n lines).
Proof.
  eexists _, _, _. split.
  - apply verify_transaction_outcome.
  - apply verify_with_proof_outcome.
Qed.

(** ** Tampering with a fingerprint *)

Lemma string_length_app (s1 s2 : string) :
  String.length (s1 ++ s2) = String.length s1 + String.length s2.
Proof. induction s1 as [|c s1 IH]; [reflexivity|]. simpl. f_equal. exact IH. Qed.

Lemma substring_0_length n :
  forall s, n <= String.length s -> String.length (substring 0 n s) = n.
Proof.
  induction n as [|n IH]; intros s Hn.
  - destruct s; reflexivity.
  - destruct s as [|c s]; cbn in *; [lia|]. rewrite IH by lia. reflexivity.
Qed.

Lemma string_from_length n :
  forall s, String.length (string_from n s) = String.length s - n.
Proof.
  induction n as [|n IH]; intros s.
  - destruct s; cbn; lia.
  - destruct s as [|c s]; cbn; [reflexivity|]. apply IH.
Qed.

Lemma get_app_at (s1 s2 : string) :
  String.get (String.length s1) (s1 ++ s2) = String.get 0 s2.
Proof. induction s1 as [|c s1 IH]; [reflexivity|]. exact IH. Qed.

Lemma all_chars_get P s :
  all_chars P s = true ->
  forall i c, String.get i s = Some c -> P c = true.
Proof.
  induction s as [|c0 s IH]; intros Hall i c Hget; [discriminate|].
  cbn in Hall. apply andb_true_iff in Hall as [Hc Hs].
  destruct i as [|i]; cbn in Hget.
  - injection Hget as <-. exact Hc.
  - eapply IH; eassumption.
Qed.

(** X13: the text that the tampering test verifies in place of a
    fingerprint, [txid[:20] + "TAMPERED" + txid[28:]], is never the
    fingerprint itself and has its 64 characters. *)
Theorem tampered_fingerprint_differs (data_str : pydata) :
  tamper_txid (double_sha256 data_str) <> double_sha256 data_str
  /\ String.length (tamper_txid (double_sha256 data_str)) = 64.
Proof.
  assert (Hform : String.length (double_sha256 data_str) = 64
                  /\ all_chars is_hex_digit (double_sha256 data_str) = true).
  { with_strategy transparent [double_sha256] (unfold double_sha256, hexdigest).
    destruct (hex_form (SHA256.digest (SHA256.digest (to_bytes data_str)))) as [Hl Hc].
    rewrite Hl, digest_length. split; [reflexivity|exact Hc]. }
  destruct Hform as [Hlen Hhex].
  set (h := double_sha256 data_str) in *.
  assert (Hpre : String.length (substring 0 20 h) = 20)
    by (apply substring_0_length; lia).
  split.
  - intros E.
    assert (Hget : String.get 20 (tamper_txid h) = Some "T"%char).
    { unfold tamper_txid. rewrite <- Hpre at 1. rewrite get_app_at. reflexivity. }
    rewrite E in Hget.
    pose proof (all_chars_get _ _ Hhex _ _ Hget) as Hbad. discriminate.
  - unfold tamper_txid.
    rewrite !string_length_app, Hpre, string_from_length, Hlen. reflexivity.
Qed.

(** ** print_merkle_tree *)

Lemma with_log_nil s : with_log s [] = s.
Proof.
  unfold with_log. destruct s as [w [fn cl txs lg st] so]. cbn.
  rewrite app_nil_r. reflexivity.
Qed.

Lemma with_log_log s lines line :
  log_message line (with_log s lines) = Done tt (with_log s (lines ++ [line])).
Proof. unfold log_message, with_log. cbn. rewrite app_assoc. reflexivity. Qed.

Lemma with_log_with_log s l1 l2 : with_log (with_log s l1) l2 = with_log s (l1 ++ l2).
Proof. unfold with_log. cbn. rewrite app_assoc. reflexivity. Qed.

Lemma log_message_with_log s line :
  log_message line s = Done tt (with_log s [line]).
Proof. reflexivity. Qed.

(** The inner loop never raises: the test [idx < len(transactions)] guards
    the subscript. *)
Lemma print_nodes_run level_idx level :
  forall idx s lines,
  exists lines',
    print_nodes level_idx idx level (with_log s lines)
    = Done tt (with_log s (lines ++ lines'))
    /\ length lines' = length level.
Proof.
  induction level as [|node_hash level IH]; intros idx s lines.
  - exists []. rewrite app_nil_r. split; reflexivity.
  - cbn [print_nodes].
    unfold mbind at 1, app_bind at 1. unfold get_session at 1.
    cbn [session with_log st_transactions].
    destruct ((level_idx =? 0) && (idx <? length (st_transactions (session s)))) eqn:G.
    + apply andb_true_iff in G as [_ G]. apply Nat.ltb_lt in G.
      destruct (lookup_lt_is_Some_2 _ _ G) as [tx Htx]. rewrite Htx.
      fold (with_log s lines).
      app_step (with_log_log _ _ _).
      destruct (IH (S idx) s (lines ++ [MsgNodeTx idx (substring 0 16 node_hash) (data tx)]))
        as (lines' & -> & Hlen).
      eexists (_ :: lines'). rewrite <- app_assoc. split; [reflexivity|].
      cbn [length]. lia.
    + fold (with_log s lines).
      app_step (with_log_log _ _ _).
      destruct (IH (S idx) s (lines ++ [MsgNode idx (substring 0 16 node_hash)]))
        as (lines' & -> & Hlen).
      eexists (_ :: lines'). rewrite <- app_assoc. split; [reflexivity|].
      cbn [length]. lia.
Qed.

Lemma print_levels_run tls levels s :
  Forall2 (fun l v => heap (app_world s) !! l = Some v) tls levels ->
  forall k a lines,
    a + k <= length tls ->
    exists lines',
      print_levels tls (length tls) (seq a k) (with_log s lines)
      = Done tt (with_log s (lines ++ lines')).
Proof.
  intros HF. induction k as [|k IH]; intros a lines Hk.
  - exists []. rewrite app_nil_r. reflexivity.
  - cbn [seq print_levels].
    destruct (lookup_lt_is_Some_2 tls a ltac:(lia)) as [l Hl]. rewrite Hl.
    destruct (Forall2_lookup_l _ _ _ _ _ HF Hl) as (v & _ & Hv).
    app_step (with_log_log _ _ _).
    assert (Hread : lift (read l) (with_log s (lines ++ [if a =? 0 then MsgLevelLeaf a
                       else if a =? length tls - 1 then MsgLevelRoot a
                       else MsgLevelInner a]))
                    = Done v (with_log s (lines ++ [if a =? 0 then MsgLevelLeaf a
                       else if a =? length tls - 1 then MsgLevelRoot a
                       else MsgLevelInner a]))).
    { unfold lift. cbn [app_world with_log]. rewrite (read_ok _ _ _ Hv). reflexivity. }
    app_step Hread.
    destruct (print_nodes_run a v 0 s (lines ++ [if a =? 0 then MsgLevelLeaf a
                       else if a =? length tls - 1 then MsgLevelRoot a
                       else MsgLevelInner a])) as (l1 & Hn & _).
    app_step Hn.
    destruct (IH (S a) ((lines ++ [if a =? 0 then MsgLevelLeaf a
                       else if a =? length tls - 1 then MsgLevelRoot a
                       else MsgLevelInner a]) ++ l1) ltac:(lia)) as (l2 & ->).
    eexists. rewrite <- !app_assoc. reflexivity.
Qed.

(** Once a full node is there whose tree is in the heap, with a root when
    it has levels, [print_merkle_tree] only adds lines to the log. *)
Lemma print_merkle_tree_run s fn levels :
  full_node (session s) = Some fn ->
  Forall2 (fun l v => heap (app_world s) !! l = Some v)
          (tree_levels (merkle_tree (block fn))) levels ->
  (tree_levels (merkle_tree (block fn)) <> [] ->
   is_Some (root (merkle_tree (block fn)))) ->
  exists lines, print_merkle_tree s = Done tt (with_log s lines).
Proof.
  intros Hfn HF Hroot. unfold print_merkle_tree.
  unfold mbind at 1, app_bind at 1. unfold get_session at 1. rewrite Hfn.
  app_step (log_message_with_log _ _).
  destruct (tree_levels (merkle_tree (block fn))) as [|l0 tls] eqn:E.
  - eexists. reflexivity.
  - rewrite <- E in *.
    destruct (print_levels_run _ _ s HF (length (tree_levels (merkle_tree (block fn))))
                0 [MsgTreeStructure] ltac:(lia)) as (l1 & H1).
    app_step H1.
    destruct Hroot as [r Hr]; [rewrite E; discriminate|]. rewrite Hr.
    unfold root_prefix. unfold mbind at 1, app_bind at 1, mret at 1, app_ret at 1.
    rewrite with_log_log. eexists. reflexivity.
Qed.

(** ** create_block *)

Lemma make_transactions_run tx_data_list :
  forall w,
    make_transactions tx_data_list w
    = Ok (records_of tx_data_list,
          World (heap w) (hash_calls w + length (records_of tx_data_list)) (out w)).
Proof.
  unfold records_of.
  induction tx_data_list as [|d rest IH]; intros w.
  - cbn. unfold ret. rewrite Nat.add_0_r, world_eta. reflexivity.
  - cbn [make_transactions].
    destruct (decide (strip d = ""%string)) as [E|E].
    + rewrite filter_cons_False by (intros H; apply H, E). apply IH.
    + rewrite filter_cons_True by exact E.
      step_with (Transaction_init_run _ _).
      step_with (IH _). unfold ret. cbn [map length heap hash_calls out].
      do 3 f_equal. lia.
Qed.
Ltac app_pure :=
  unfold mbind, app_bind, mret, app_ret, log_message, get_session, put_session;
  cbn [app_world session stdout full_node spv_client st_transactions
       log_messages stats].

Lemma create_block_upto_header d rest s :
  let txs := records_of (d :: rest) in
  let w := app_world s in
  exists t w2 lines,
    MerkleTree_init txs
      (World (heap w) (hash_calls w + length txs) (out w)) = Ok (t, w2)
    /\ create_block (d :: rest) s
       = ((r ← root_prefix (root t);
           log_message (MsgHeaderRoot r) ≫= fun _ =>
           print_merkle_tree ≫= fun _ =>
           log_message MsgSetupComplete ≫= fun _ =>
           mret true)
            (mkApp w2
               (mkSession (Some (mkFullNode (mkBlock txs t (mkHeader (root t)))))
                  (client_of t) txs lines (stats (session s)))
               (stdout s))).
Proof.
  intros txs w.
  destruct (Block_header_run txs (World (heap w) (hash_calls w + length txs) (out w)))
    as (b & w2 & _ & _ & Hb & Hinit & _).
  assert (Hbt : b = mkBlock txs (merkle_tree b) (mkHeader (root (merkle_tree b)))).
  { unfold Block_init in Hb. rewrite (bind_ok _ _ _ _ _ Hinit) in Hb. injection Hb as <-. reflexivity. }
  exists (merkle_tree b), w2. eexists. split; [exact Hinit|].
  unfold create_block. app_pure.
  unfold lift at 1. cbn [app_world]. rewrite make_transactions_run.
  app_pure. fold txs. fold w.
  unfold lift at 1. cbn [app_world]. rewrite Hb.
  app_pure. rewrite Hbt at 1 2 3. cbn [header]. reflexivity.
Qed.
Lemma root_of_built txs w t w1 :
  txs <> [] -> MerkleTree_init txs w = Ok (t, w1) -> is_Some (root t).
Proof.
  intros Hne Hinit. rewrite MerkleTree_init_run in Hinit. injection Hinit as <- _.
  cbn [root].
  assert (Hl : map txid txs <> []) by (destruct txs; [congruence|discriminate]).
  destruct (linked_last _ (tree_levels_of_linked _ Hl)) as [r ->]. cbn. eauto.
Qed.

(** X14: for lines of text with code points below 256, where
    [Transaction] cannot raise on encoding: when at least one of the lines
    entered is not blank, [create_block] returns [True] and leaves the
    session in step: the transactions are the records of the non-blank
    lines, stripped, in order; the full node holds the block built from
    them; the client holds that block's header, the root of its tree; the
    statistics are as before. *)
Theorem create_block_sets_up (tx_data_list : list string) (s : app_state) :
  records_of tx_data_list <> [] ->
  let txs := records_of tx_data_list in
  let w := app_world s in
  exists t w2 lines,
    MerkleTree_init txs
      (World (heap w) (hash_calls w + length txs) (out w)) = Ok (t, w2)
    /\ create_block tx_data_list s
       = Done true
           (mkApp w2
              (mkSession (Some (mkFullNode (mkBlock txs t (mkHeader (root t)))))
                 (client_of t) txs lines (stats (session s)))
              (stdout s)).
Proof.
  intros Hne txs w.
  destruct tx_data_list as [|d rest]; [exfalso; apply Hne; reflexivity|].
  destruct (create_block_upto_header d rest s) as (t & w2 & lines & Hinit & ->).
  fold txs in Hinit |- *. fold w in Hinit.
  destruct (root_of_built _ _ _ _ Hne Hinit) as [r Hr].
  pose proof (MerkleTree_init_tree_at _ _ _ _ Hinit) as Hat.
  exists t, w2. rewrite Hr. unfold root_prefix.
  unfold mbind at 1, app_bind at 1, mret at 1, app_ret at 1.
  app_step (log_message_with_log _ _).
  set (s1 := mkApp w2 _ _).
  destruct (print_merkle_tree_run (with_log s1 [MsgHeaderRoot (substring 0 32 r)])
              (mkFullNode (mkBlock txs t (mkHeader (Some r)))) _ eq_refl
              (at_levels _ _ _ Hat)) as (l1 & Hp).
  { intros _. cbn [block merkle_tree]. rewrite Hr. eauto. }
  app_step Hp. rewrite with_log_with_log.
  app_step (with_log_log _ _ _).
  eexists. split; [exact Hinit|]. reflexivity.
Qed.

Lemma create_block_sets_up_witness :
  records_of ["Alice pays Bob"; ""; "  Carol pays David "]%string <> []
  /\ exists t w2 lines,
       MerkleTree_init
         (records_of ["Alice pays Bob"; ""; "  Carol pays David "]%string)
         (World [] (0 + 2) []) = Ok (t, w2)
       /\ create_block ["Alice pays Bob"; ""; "  Carol pays David "]%string
            (mkApp empty_world initial_session [])
          = Done true
              (mkApp w2
                 (mkSession
                    (Some (mkFullNode
                       (mkBlock
                          (records_of ["Alice pays Bob"; ""; "  Carol pays David "]%string)
                          t (mkHeader (root t)))))
                    (client_of t)
                    (records_of ["Alice pays Bob"; ""; "  Carol pays David "]%string)
                    lines (mkStats 0 0 0))
                 []).
Proof.
  assert (Hne : records_of ["Alice pays Bob"; ""; "  Carol pays David "]%string <> [])
    by (vm_compute; discriminate).
  split; [exact Hne|].
  exact (create_block_sets_up _ (mkApp empty_world initial_session []) Hne).
Defined.

Example records_of_strips :
  records_of ["Alice pays Bob"; ""; "  Carol pays David "]%string
  = [record "Alice pays Bob"; record "Carol pays David"].
Proof. reflexivity. Qed.
Lemma records_of_blank tx_data_list :
  Forall (fun data => strip data = ""%string) tx_data_list ->
  records_of tx_data_list = [].
Proof.
  unfold records_of. induction 1 as [|d rest Hd _ IH]; [reflexivity|].
  rewrite filter_cons_False by (intros H; apply H, Hd). exact IH.
Qed.

(** X15: with no line at all [create_block] returns [False] and only
    restarts the log.  With lines that are all blank (as the one empty line
    of an empty text area) it raises [TypeError], on the root [None] of the
    empty block it has built; by then the session holds the full node of that
    empty block, its header in the client and no transaction, so that
    [verify_transaction] answers "No block created yet". *)
Theorem create_block_without_text (tx_data_list : list string) (s : app_state) :
  Forall (fun data => strip data = ""%string) tx_data_list ->
  match tx_data_list with
  | [] =>
      create_block [] s
      = Done false
          (mkApp (app_world s)
             (mkSession (full_node (session s)) (spv_client (session s))
                (st_transactions (session s))
                [MsgSetupPhase; MsgNoTransactions] (stats (session s)))
             (stdout s))
  | _ =>
      exists t w2 lines s',
        s' = mkApp w2
               (mkSession (Some (mkFullNode (mkBlock [] t (mkHeader None))))
                  (mkSPVClient (Some (mkHeader None))) [] lines
                  (stats (session s)))
               (stdout s)
        /\ tree_levels t = []
        /\ create_block tx_data_list s = Failed TypeError s'
        /\ forall tx_index tamper,
             app_verify_transaction tx_index tamper s'
             = Done (false, NoBlockCreatedYet) s'
  end.
Proof.
  intros Hblank. destruct tx_data_list as [|d rest]; [reflexivity|].
  destruct (create_block_upto_header d rest s) as (t & w2 & lines & Hinit & ->).
  rewrite (records_of_blank _ Hblank) in *.
  pose proof Hinit as Hrun. rewrite MerkleTree_init_run in Hrun.
  injection Hrun as Ht _.
  assert (Hroot : root t = None) by (rewrite <- Ht; reflexivity).
  assert (Hlev : tree_levels t = []) by (rewrite <- Ht; reflexivity).
  exists t, w2, lines. eexists. split; [reflexivity|]. split; [exact Hlev|].
  unfold client_of. rewrite Hroot. split; reflexivity.
Qed.

Lemma create_block_without_text_witness :
  Forall (fun data => strip data = ""%string) [""; "  "]%string
  /\ exists t w2 lines s',
       s' = mkApp w2
              (mkSession (Some (mkFullNode (mkBlock [] t (mkHeader None))))
                 (mkSPVClient (Some (mkHeader None))) [] lines (mkStats 0 0 0))
              []
       /\ tree_levels t = []
       /\ create_block [""; "  "]%string (mkApp empty_world initial_session [])
          = Failed TypeError s'
       /\ forall tx_index tamper,
            app_verify_transaction tx_index tamper s'
            = Done (false, NoBlockCreatedYet) s'.
Proof.
  assert (Hb : Forall (fun data => strip data = ""%string) [""; "  "]%string)
    by (repeat constructor).
  split; [exact Hb|].
  exact (create_block_without_text [""; "  "]%string
           (mkApp empty_world initial_session []) Hb).
Defined.

(** ** verify_transaction of the front end *)

(** The run of [verify_transaction] once the session has a full node, the
    transaction asked for, and a tree on which [get_proof] returns. *)
Lemma app_verify_run tx_index (tamper : bool) s fn tx r w' :
  full_node (session s) = Some fn ->
  st_transactions (session s) !! tx_index = Some tx ->
  get_proof (merkle_tree (block fn)) (txid tx) (app_world s) = Ok (r, w') ->
  let txid_to_verify := if tamper then tamper_txid (txid tx) else txid tx in
  let result := (verify_outcome (spv_client (session s)) txid_to_verify r).1.1 in
  exists w2 lines so,
    app_verify_transaction tx_index tamper s
    = Done (result, DisplayName (data tx))
        (mkApp w2
           (mkSession (full_node (session s)) (spv_client (session s))
              (st_transactions (session s)) (log_messages (session s) ++ lines)
              (count_verification (stats (session s)) result))
           so)
    /\ heap w2 = heap (app_world s).
Proof.
  intros Hfn Htx Hget txid_to_verify result.
  unfold app_verify_transaction.
  unfold mbind at 1, app_bind at 1. unfold get_session at 1.
  rewrite Hfn.
  destruct (st_transactions (session s)) as [|tx0 txs] eqn:Etxs;
    [destruct tx_index; discriminate|].
  rewrite <- Etxs in *.
  app_step (log_message_with_log _ _); cbv beta.
  app_step (with_log_log _ _ _); cbv beta.
  cbn [session with_log st_transactions]. rewrite Htx.
  set (l0 := [MsgSeparator] ++ [MsgVerificationPhase]).
  assert (Hpre : exists l1,
             (if tamper
              then log_message (MsgTampering (data tx)) ≫= fun _ =>
                   mret (tamper_txid (txid tx))
              else mret (txid tx)) (with_log s l0)
             = Done txid_to_verify (with_log s (l0 ++ l1))).
  { destruct tamper.
    - exists [MsgTampering (data tx)].
      app_step (with_log_log _ _ _); cbv beta. reflexivity.
    - exists []. rewrite app_nil_r. reflexivity. }
  destruct Hpre as [l1 Hpre].
  fold (with_log s l0).
  app_step Hpre; cbv beta.
  app_step (with_log_log _ _ _); cbv beta.
  app_step (with_log_log _ _ _); cbv beta.
  app_step (with_log_log _ _ _); cbv beta.
  set (l2 := (((l0 ++ l1) ++ [MsgNetworkSim]) ++ [MsgNeedToVerify (data tx)])
             ++ [MsgSendingRequest]).
  app_step (get_merkle_proof_run fn (txid tx) (with_log s l2) r w' Hget); cbv beta.
  set (s3 := mkApp _ _ _).
  app_step (log_message_with_log _ _); cbv beta.
  app_step (with_log_log _ _ _); cbv beta.
  app_step (verify_with_proof_outcome _ _ _); cbv beta.
  unfold mbind at 1, app_bind at 1. unfold get_session at 1.
  unfold mbind at 1, app_bind at 1. unfold put_session at 1.
  cbn [session spv_client after_verifying with_log s3 app_world stdout
       full_node st_transactions log_messages stats mret app_ret].
  fold result.
  eexists _, _, _. split.
  - unfold count_verification. rewrite <- !app_assoc, Hfn. reflexivity.
  - reflexivity.
Qed.
Lemma app_bind_failed {A B} (m : App A) (k : A -> App B) s e s' :
  m s = Failed e s' -> (m ≫= k) s = Failed e s'.
Proof. unfold mbind, app_bind. intros ->. reflexivity. Qed.

Lemma app_verify_raises tx_index (tamper : bool) s fn tx e :
  full_node (session s) = Some fn ->
  st_transactions (session s) !! tx_index = Some tx ->
  get_proof (merkle_tree (block fn)) (txid tx) (app_world s) = Raise e ->
  exists s', app_verify_transaction tx_index tamper s = Failed (Exn e) s'.
Proof.
  intros Hfn Htx Hget.
  unfold app_verify_transaction.
  unfold mbind at 1, app_bind at 1. unfold get_session at 1.
  rewrite Hfn.
  destruct (st_transactions (session s)) as [|tx0 txs] eqn:Etxs;
    [destruct tx_index; discriminate|].
  rewrite <- Etxs in *.
  app_step (log_message_with_log _ _); cbv beta.
  app_step (with_log_log _ _ _); cbv beta.
  cbn [session with_log st_transactions]. rewrite Htx.
  set (l0 := [MsgSeparator] ++ [MsgVerificationPhase]).
  assert (Hpre : exists l1,
             (if tamper
              then log_message (MsgTampering (data tx)) ≫= fun _ =>
                   mret (tamper_txid (txid tx))
              else mret (txid tx)) (with_log s l0)
             = Done (if tamper then tamper_txid (txid tx) else txid tx)
                 (with_log s (l0 ++ l1))).
  { destruct tamper.
    - exists [MsgTampering (data tx)].
      app_step (with_log_log _ _ _). reflexivity.
    - exists []. rewrite app_nil_r. reflexivity. }
  destruct Hpre as [l1 Hpre].
  fold (with_log s l0).
  app_step Hpre; cbv beta.
  app_step (with_log_log _ _ _); cbv beta.
  app_step (with_log_log _ _ _); cbv beta.
  app_step (with_log_log _ _ _); cbv beta.
  eexists. apply app_bind_failed.
  unfold get_merkle_proof, mbind, app_bind, print, lift.
  cbn [app_world session stdout with_log]. rewrite Hget. reflexivity.
Qed.

(** X16: whatever the session.  Without a block, that is with no full node
    or with no transaction, [verify_transaction] answers [False] and "No
    block created yet" and changes nothing at all.  With a block, a call
    that returns answers with the data of the transaction at the index as
    display name, leaves the full node, the client's header and the
    transactions as they were, and counts exactly one verification: as a
    success when it answers [True], as a failure when it answers [False], so
    that a total equal to successes plus failures stays so. *)
Theorem app_verify_counts (tx_index : nat) (tamper : bool) (s : app_state) :
  match full_node (session s), st_transactions (session s) with
  | Some _, _ :: _ =>
      forall (b : bool) (name : display_text) (s' : app_state),
        app_verify_transaction tx_index tamper s = Done (b, name) s' ->
        (exists tx,
            st_transactions (session s) !! tx_index = Some tx
            /\ name = DisplayName (data tx))
        /\ full_node (session s') = full_node (session s)
        /\ spv_client (session s') = spv_client (session s)
        /\ st_transactions (session s') = st_transactions (session s)
        /\ stats (session s') = count_verification (stats (session s)) b
        /\ (total_verifications (stats (session s))
            = successful_verifications (stats (session s))
              + failed_verifications (stats (session s)) ->
            total_verifications (stats (session s'))
            = successful_verifications (stats (session s'))
              + failed_verifications (stats (session s')))
  | _, _ =>
      app_verify_transaction tx_index tamper s
      = Done (false, NoBlockCreatedYet) s
  end.
Proof.
  destruct (full_node (session s)) as [fn|] eqn:Hfn.
  - destruct (st_transactions (session s)) as [|tx0 txs] eqn:Etxs.
    + unfold app_verify_transaction.
      unfold mbind at 1, app_bind at 1. unfold get_session at 1.
      rewrite Hfn, Etxs. reflexivity.
    + rewrite <- Etxs. intros b name s' H.
      destruct (st_transactions (session s) !! tx_index) as [tx|] eqn:Htx.
      * destruct (get_proof (merkle_tree (block fn)) (txid tx) (app_world s))
          as [[r w']|e] eqn:Hget.
        -- destruct (app_verify_run tx_index tamper s fn tx r w' Hfn Htx Hget)
             as (w2 & lines & so & Hrun & _).
           rewrite Hrun in H. injection H as <- <- <-.
           cbn [session full_node spv_client st_transactions stats].
           rewrite Hfn.
           split; [exists tx; split; reflexivity|].
           repeat split.
           unfold count_verification.
           destruct (verify_outcome _ _ _).1.1; cbn; lia.
        -- destruct (app_verify_raises tx_index tamper s fn tx e Hfn Htx Hget)
             as [s1 Hf].
           rewrite Hf in H. discriminate.
      * unfold app_verify_transaction in H.
        unfold mbind at 1, app_bind at 1 in H. unfold get_session at 1 in H.
        rewrite Hfn in H.
        destruct (st_transactions (session s)) as [|tx1 txs1] eqn:Etxs1;
          [discriminate|].
        rewrite <- Etxs1 in *.
        rewrite (app_bind_done _ _ _ _ _ (log_message_with_log _ _)) in H.
        rewrite (app_bind_done _ _ _ _ _ (with_log_log _ _ _)) in H.
        cbn [session with_log st_transactions] in H. rewrite Htx in H.
        discriminate.
  - unfold app_verify_transaction.
    unfold mbind at 1, app_bind at 1. unfold get_session at 1.
    rewrite Hfn. reflexivity.
Qed.

(** ** A block created, then verified *)

(** What a [create_block] that returned [True] has left. *)
Lemma create_block_done tx_data_list s s1 :
  create_block tx_data_list s = Done true s1 ->
  let txs := records_of tx_data_list in
  let w := app_world s in
  exists t w2 lines,
    txs <> []
    /\ MerkleTree_init txs
         (World (heap w) (hash_calls w + length txs) (out w)) = Ok (t, w2)
    /\ s1 = mkApp w2
              (mkSession (Some (mkFullNode (mkBlock txs t (mkHeader (root t)))))
                 (client_of t) txs lines (stats (session s)))
              (stdout s).
Proof.
  intros H txs w.
  destruct tx_data_list as [|d rest]; [discriminate|].
  destruct (create_block_upto_header d rest s) as (t & w2 & lines & Hinit & Hrun).
  rewrite Hrun in H. clear Hrun.
  fold txs in Hinit, H. fold w in Hinit.
  destruct (decide (txs = [])) as [E|Hne].
  - rewrite E in Hinit. rewrite MerkleTree_init_run in Hinit.
    injection Hinit as Ht _.
    assert (Hroot : root t = None) by (rewrite <- Ht; reflexivity).
    rewrite Hroot in H. discriminate.
  - destruct (root_of_built _ _ _ _ Hne Hinit) as [r Hr].
    pose proof (MerkleTree_init_tree_at _ _ _ _ Hinit) as Hat.
    exists t, w2. rewrite Hr in H |- *. unfold root_prefix in H.
    unfold mbind at 1, app_bind at 1, mret at 1, app_ret at 1 in H.
    rewrite (app_bind_done _ _ _ _ _ (log_message_with_log _ _)) in H.
    set (s0 := mkApp w2 _ _) in H.
    destruct (print_merkle_tree_run (with_log s0 [MsgHeaderRoot (substring 0 32 r)])
                (mkFullNode (mkBlock txs t (mkHeader (Some r)))) _ eq_refl
                (at_levels _ _ _ Hat)) as (l1 & Hp).
    { intros _. cbn [block merkle_tree]. rewrite Hr. eauto. }
    rewrite (app_bind_done _ _ _ _ _ Hp), with_log_with_log in H.
    rewrite (app_bind_done _ _ _ _ _ (with_log_log _ _ _)) in H.
    injection H as <-.
    eexists. split; [exact Hne|]. split; [exact Hinit|]. reflexivity.
Qed.

(** X17: after a [create_block] that returned [True], [verify_transaction]
    of any transaction of the list, not tampered with, returns [True] with
    the transaction's data as display name, and counts one verification
    more, a successful one. *)
Theorem listed_transaction_verifies (tx_data_list : list string)
    (s s1 : app_state) (tx_index : nat) (tx : Transaction) :
  create_block tx_data_list s = Done true s1 ->
  st_transactions (session s1) !! tx_index = Some tx ->
  exists s2,
    app_verify_transaction tx_index false s1
    = Done (true, DisplayName (data tx)) s2
    /\ stats (session s2) = count_verification (stats (session s)) true
    /\ st_transactions (session s2) = records_of tx_data_list.
Proof.
  intros Hcb Htx.
  destruct (create_block_done _ _ _ Hcb) as (t & w2 & lines & Hne & Hinit & ->).
  cbn [session st_transactions] in Htx.
  set (txs := records_of tx_data_list) in *.
  assert (Hx : txid tx ∈ map txid txs).
  { apply list_elem_of_fmap_2. eapply list_elem_of_lookup_2, Htx. }
  destruct (list_index_elem_of _ _ Hx) as [i Hidx].
  destruct (list_index_Some _ _ _ Hidx) as [Hi _].
  destruct (built_tree_verifies txs
              (World (heap (app_world s))
                 (hash_calls (app_world s) + length txs) (out (app_world s)))
              i (txid tx) (stored_lookup _ _ _ Hi) Hidx)
    as (t' & w1 & w3 & Hinit' & Hget & Hver & _).
  rewrite Hinit in Hinit'. injection Hinit' as <- <-.
  set (s1 := mkApp w2 _ _).
  destruct (app_verify_run tx_index false s1 _ tx _ _ eq_refl Htx Hget)
    as (w4 & lines' & so & Hrun & _).
  cbv zeta in Hrun. cbn [session spv_client] in Hrun.
  rewrite verify_transaction_outcome in Hver.
  set (b := (verify_outcome _ _ _).1.1) in Hver, Hrun.
  assert (Hb : b = true) by congruence.
  rewrite Hb in Hrun.
  eexists. split; [exact Hrun|]. split; reflexivity.
Qed.

Lemma listed_transaction_verifies_witness :
  exists s1 tx,
    create_block ["Alice pays Bob"; "Carol pays David"]%string
      (mkApp empty_world initial_session []) = Done true s1
    /\ st_transactions (session s1) !! 1 = Some tx
    /\ exists s2,
         app_verify_transaction 1 false s1
         = Done (true, DisplayName (data tx)) s2
         /\ stats (session s2) = count_verification (mkStats 0 0 0) true
         /\ st_transactions (session s2)
            = records_of ["Alice pays Bob"; "Carol pays David"]%string.
Proof.
  eexists _, _.
  assert (Hcb : create_block ["Alice pays Bob"; "Carol pays David"]%string
                  (mkApp empty_world initial_session []) = Done true _)
    by (vm_compute; reflexivity).
  split; [exact Hcb|].
  split; [reflexivity|].
  exact (listed_transaction_verifies _ _ _ 1 _ Hcb eq_refl).
Defined.

(** The text put in place of a fingerprint differs from it. *)
Lemma tamper_differs data_str :
  tamper_txid (double_sha256 data_str) <> double_sha256 data_str.
Proof.
  assert (Hform : String.length (double_sha256 data_str) = 64
                  /\ all_chars is_hex_digit (double_sha256 data_str) = true).
  { with_strategy transparent [double_sha256] (unfold double_sha256, hexdigest).
    destruct (hex_form (SHA256.digest (SHA256.digest (to_bytes data_str)))) as [Hl Hc].
    rewrite Hl, digest_length. split; [reflexivity|exact Hc]. }
  destruct Hform as [Hlen Hhex].
  set (h := double_sha256 data_str) in *.
  assert (Hpre : String.length (substring 0 20 h) = 20)
    by (apply substring_0_length; lia).
  intros E.
  assert (Hget : String.get 20 (tamper_txid h) = Some "T"%char).
  { unfold tamper_txid. rewrite <- Hpre at 1. rewrite get_app_at. reflexivity. }
  rewrite E in Hget.
  pose proof (all_chars_get _ _ Hhex _ _ Hget) as Hbad. discriminate.
Qed.

Lemma records_of_txid tx_data_list tx :
  tx ∈ records_of tx_data_list -> txid tx = double_sha256 (data tx).
Proof.
  unfold records_of. intros H.
  apply list_elem_of_fmap in H as (d & -> & _). reflexivity.
Qed.

(** X18: in a block of a single record the tampering test is caught:
    [verify_transaction] with [tamper] returns [False] for the only
    transaction and counts one failed verification. *)
Theorem single_record_tampering_is_caught (tx_data_list : list string)
    (s s1 : app_state) (tx : Transaction) :
  create_block tx_data_list s = Done true s1 ->
  st_transactions (session s1) = [tx] ->
  exists s2,
    app_verify_transaction 0 true s1
    = Done (false, DisplayName (data tx)) s2
    /\ stats (session s2) = count_verification (stats (session s)) false.
Proof.
  intros Hcb Htx.
  destruct (create_block_done _ _ _ Hcb) as (t & w2 & lines & Hne & Hinit & ->).
  cbn [session st_transactions] in Htx.
  assert (Hid : txid tx = double_sha256 (data tx)).
  { apply (records_of_txid tx_data_list). rewrite Htx. apply list_elem_of_here. }
  rewrite Htx in *.
  assert (Hidx : list_index (txid tx) (map txid [tx]) = Some 0).
  { cbn. rewrite decide_True by reflexivity. reflexivity. }
  destruct (built_tree_verifies [tx]
              (World (heap (app_world s))
                 (hash_calls (app_world s) + length [tx]) (out (app_world s)))
              0 (txid tx) eq_refl Hidx)
    as (t' & w1 & w3 & Hinit' & Hget & _ & _).
  rewrite Hinit in Hinit'. injection Hinit' as <- <-.
  pose proof (at_root _ _ _ (MerkleTree_init_tree_at _ _ _ _ Hinit)) as Hroot.
  change (root t = Some (txid tx)) in Hroot.
  change (path (tree_levels_of (map txid [tx])) 0) with (@nil proof_entry) in Hget.
  set (s1 := mkApp w2 _ _).
  destruct (app_verify_run 0 true s1 _ tx _ _ eq_refl eq_refl Hget)
    as (w4 & lines' & so & Hrun & _).
  cbv beta iota zeta in Hrun. subst s1.
  cbn [session spv_client full_node st_transactions log_messages stats] in Hrun.
  assert (Hb : (verify_outcome (client_of t) (tamper_txid (txid tx)) (Some [])).1.1
               = false).
  { unfold verify_outcome, client_of. cbn [block_header merkle_root fst].
    rewrite Hroot. unfold climb. cbn [fold_left].
    apply bool_decide_eq_false_2. intros [= E].
    rewrite Hid in E. exact (tamper_differs _ E). }
  rewrite Hb in Hrun.
  eexists. split; [exact Hrun|]. reflexivity.
Qed.

Lemma single_record_tampering_is_caught_witness :
  exists s1 tx,
    create_block ["Alice pays Bob"]%string
      (mkApp empty_world initial_session []) = Done true s1
    /\ st_transactions (session s1) = [tx]
    /\ exists s2,
         app_verify_transaction 0 true s1
         = Done (false, DisplayName (data tx)) s2
         /\ stats (session s2) = count_verification (mkStats 0 0 0) false.
Proof.
  eexists _, _.
  assert (Hcb : create_block ["Alice pays Bob"]%string
                  (mkApp empty_world initial_session []) = Done true _)
    by (vm_compute; reflexivity).
  split; [exact Hcb|].
  split; [reflexivity|].
  exact (single_record_tampering_is_caught _ _ _ _ Hcb eq_refl).
Defined.

Lemma app_verify_counts_witness :
  exists s1 s2,
    create_block ["Alice pays Bob"; "Carol pays David"]%string
      (mkApp empty_world initial_session []) = Done true s1
    /\ app_verify_transaction 1 true s1
       = Done (false, DisplayName (PyStr "Carol pays David")) s2
    /\ (exists tx,
           st_transactions (session s1) !! 1 = Some tx
           /\ DisplayName (PyStr "Carol pays David") = DisplayName (data tx))
    /\ full_node (session s2) = full_node (session s1)
    /\ spv_client (session s2) = spv_client (session s1)
    /\ st_transactions (session s2) = st_transactions (session s1)
    /\ stats (session s2) = count_verification (stats (session s1)) false
    /\ (total_verifications (stats (session s1))
        = successful_verifications (stats (session s1))
          + failed_verifications (stats (session s1)) ->
        total_verifications (stats (session s2))
        = successful_verifications (stats (session s2))
          + failed_verifications (stats (session s2))).
Proof.
  eexists _, _.
  split; [vm_compute; reflexivity|].
  match goal with
  | |- app_verify_transaction _ _ ?s1 = ?r /\ _ =>
      assert (Hv : app_verify_transaction 1 true s1 = r)
        by (vm_compute; reflexivity);
      split; [exact Hv|];
      exact (app_verify_counts 1 true s1 false _ _ Hv)
  end.
Defined.

(** ** Verifying again *)

(** [get_proof] looks at the lists only: in any state with the same lists it
    returns the same. *)
Lemma proof_loop_heap tls levels :
  forall i acc w w2 proof w',
    heap w2 = heap w ->
    proof_loop tls levels i acc w = Ok (proof, w') ->
    proof_loop tls levels i acc w2 = Ok (proof, w2).
Proof.
  induction levels as [|level levels IH]; intros i acc w w2 proof w' Hh H.
  - injection H as <- _. reflexivity.
  - cbn [proof_loop] in H |- *.
    destruct (tls !! level) as [cl|]; [|discriminate].
    apply bind_inv in H as (n & w1 & Hn & H).
    apply list_len_inv in Hn as (-> & v & Hv & ->).
    rewrite <- Hh in Hv. step_with (list_len_ok _ _ _ Hv).
    destruct (negb (length v mod 2 =? 0) && (i =? length v - 1)).
    + eapply IH; eassumption.
    + destruct (i mod 2 =? 0).
      * apply bind_inv in H as (x & w1 & Hx & H).
        apply list_get_inv in Hx as (-> & v' & Hv' & Hx).
        rewrite <- Hh in Hv'. step_with (list_get_ok _ _ _ _ _ Hv' Hx).
        eapply IH; eassumption.
      * apply bind_inv in H as (x & w1 & Hx & H).
        apply list_get_inv in Hx as (-> & v' & Hv' & Hx).
        rewrite <- Hh in Hv'. step_with (list_get_ok _ _ _ _ _ Hv' Hx).
        eapply IH; eassumption.
Qed.

Lemma get_proof_heap t target w w2 r w' :
  heap w2 = heap w ->
  get_proof t target w = Ok (r, w') ->
  get_proof t target w2 = Ok (r, w2).
Proof.
  unfold get_proof. intros Hh H.
  apply bind_inv in H as (ids & w1 & Hr & H).
  apply read_inv in Hr as [-> Hids].
  rewrite <- Hh in Hids. step_with (read_ok _ _ _ Hids).
  destruct (list_index target ids); [|injection H as <- _; reflexivity].
  apply bind_inv in H as (p & w1 & Hp & H).
  step_with (proof_loop_heap _ _ _ _ _ _ _ _ Hh Hp).
  injection H as <- _. reflexivity.
Qed.

(** X19: a verification can be asked again: when [verify_transaction]
    returns, the same call in the state it leaves returns the same answer
    and the same display name. *)
Theorem verification_is_repeatable (tx_index : nat) (tamper : bool)
    (s s' : app_state) (b : bool) (name : display_text) :
  app_verify_transaction tx_index tamper s = Done (b, name) s' ->
  exists s'', app_verify_transaction tx_index tamper s' = Done (b, name) s''.
Proof.
  intros H.
  destruct (full_node (session s)) as [fn|] eqn:Hfn.
  - destruct (st_transactions (session s) !! tx_index) as [tx|] eqn:Htx.
    + destruct (get_proof (merkle_tree (block fn)) (txid tx) (app_world s))
        as [[r w']|e] eqn:Hget.
      * destruct (app_verify_run tx_index tamper s fn tx r w' Hfn Htx Hget)
          as (w2 & lines & so & Hrun & Hheap).
        cbv zeta in Hrun. rewrite Hrun in H. injection H as <- <- <-.
        set (s' := mkApp w2 _ so).
        assert (Hfn' : full_node (session s') = Some fn) by exact Hfn.
        assert (Htx' : st_transactions (session s') !! tx_index = Some tx)
          by exact Htx.
        pose proof (get_proof_heap _ _ _ w2 _ _ Hheap Hget) as Hget'.
        destruct (app_verify_run tx_index tamper s' fn tx r w2 Hfn' Htx' Hget')
          as (w3 & lines' & so' & Hrun' & _).
        eexists. exact Hrun'.
      * destruct (app_verify_raises tx_index tamper s fn tx e Hfn Htx Hget)
          as [s1 Hf].
        rewrite Hf in H. discriminate.
    + unfold app_verify_transaction in H.
      unfold mbind at 1, app_bind at 1 in H. unfold get_session at 1 in H.
      rewrite Hfn in H.
      destruct (st_transactions (session s)) as [|tx0 txs] eqn:Etxs.
      * injection H as <- <- <-. exists s.
        unfold app_verify_transaction.
        unfold mbind at 1, app_bind at 1. unfold get_session at 1.
        rewrite Hfn, Etxs. reflexivity.
      * rewrite <- Etxs in *.
        rewrite (app_bind_done _ _ _ _ _ (log_message_with_log _ _)) in H.
        rewrite (app_bind_done _ _ _ _ _ (with_log_log _ _ _)) in H.
        cbn [session with_log st_transactions] in H. rewrite Htx in H.
        discriminate.
  - unfold app_verify_transaction in H.
    unfold mbind at 1, app_bind at 1 in H. unfold get_session at 1 in H.
    rewrite Hfn in H. injection H as <- <- <-. exists s.
    unfold app_verify_transaction.
    unfold mbind at 1, app_bind at 1. unfold get_session at 1.
    rewrite Hfn. reflexivity.
Qed.

Lemma verification_is_repeatable_witness :
  exists s1 s2,
    create_block ["Alice pays Bob"; "Carol pays David"; "Eve pays Frank"]%string
      (mkApp empty_world initial_session []) = Done true s1
    /\ app_verify_transaction 2 false s1
       = Done (true, DisplayName (PyStr "Eve pays Frank")) s2
    /\ exists s3,
         app_verify_transaction 2 false s2
         = Done (true, DisplayName (PyStr "Eve pays Frank")) s3.
Proof.
  eexists _, _.
  split; [vm_compute; reflexivity|].
  match goal with
  | |- ?a = ?b /\ _ => assert (Hv : a = b) by (vm_compute; reflexivity)
  end.
  split; [exact Hv|].
  exact (verification_is_repeatable 2 false _ _ true _ Hv).
Defined.

(** ** An index out of range *)

(** X20: with a block and transactions in the session, an index past the
    last transaction makes [verify_transaction] raise [IndexError]; by then
    it has logged its two heading lines, and nothing is counted. *)
Theorem verify_index_out_of_range (tx_index : nat) (tamper : bool)
    (s : app_state) (fn : FullNode) :
  full_node (session s) = Some fn ->
  st_transactions (session s) <> [] ->
  length (st_transactions (session s)) <= tx_index ->
  app_verify_transaction tx_index tamper s
  = Failed (Exn IndexError) (with_log s [MsgSeparator; MsgVerificationPhase]).
Proof.
  intros Hfn Hne Hi.
  unfold app_verify_transaction.
  unfold mbind at 1, app_bind at 1. unfold get_session at 1. rewrite Hfn.
  destruct (st_transactions (session s)) as [|tx0 txs] eqn:Etxs; [congruence|].
  rewrite <- Etxs in *.
  app_step (log_message_with_log _ _); cbv beta.
  app_step (with_log_log _ _ _); cbv beta.
  cbn [session with_log st_transactions].
  rewrite (lookup_ge_None_2 _ _ Hi). reflexivity.
Qed.

Lemma verify_index_out_of_range_witness :
  full_node (session one_leaf_session) = Some (mkFullNode one_leaf_block)
  /\ st_transactions (session one_leaf_session) <> []
  /\ length (st_transactions (session one_leaf_session)) <= 1
  /\ app_verify_transaction 1 false one_leaf_session
     = Failed (Exn IndexError)
         (with_log one_leaf_session [MsgSeparator; MsgVerificationPhase]).
Proof.
  assert (Hne : st_transactions (session one_leaf_session) <> [])
    by discriminate.
  assert (Hi : length (st_transactions (session one_leaf_session)) <= 1)
    by (cbn; lia).
  split; [reflexivity|]. split; [exact Hne|]. split; [exact Hi|].
  exact (verify_index_out_of_range 1 false one_leaf_session
           (mkFullNode one_leaf_block) eq_refl Hne Hi).
Defined.

(** ** The full node's answer for two records or more *)

(** X21: in a block of two records or more the full node, asked for the
    proof of a record of the block, prints "Proof found" with the number of
    entries, one for each level but the last, and returns a proof with which
    the client that has stored the block's header verifies the record. *)
Theorem full_node_sends_proof (txs : list Transaction) (tx : Transaction)
    (s : app_state) :
  2 <= length txs ->
  tx ∈ txs ->
  exists b s1 proof s2,
    lift (Block_init txs) s = Done b s1
    /\ get_merkle_proof (mkFullNode b) (txid tx) s1 = Done (Some proof) s2
    /\ 0 < length proof
    /\ length proof = length (tree_levels (merkle_tree b)) - 1
    /\ stdout s2 = stdout s ++ [PrintRequest (substring 0 10 (txid tx));
                                PrintProofFound (length proof)]
    /\ exists c w3 w4,
         set_header SPVClient_init (header b) (app_world s2) = Ok (c, w3)
         /\ verify_transaction c (txid tx) (Some proof) w3 = Ok (true, w4).
Proof.
  intros Hlen Hin.
  destruct (Block_header_run txs (app_world s))
    as (b & w1 & c & w2 & Hb & Hinit & Hset & -> & Hh & _).
  assert (Hx : txid tx ∈ map txid txs) by (apply list_elem_of_fmap_2, Hin).
  destruct (list_index_elem_of _ _ Hx) as [i Hidx].
  destruct (list_index_Some _ _ _ Hidx) as [Hi _].
  destruct (built_tree_verifies txs (app_world s) i (txid tx)
              (stored_lookup _ _ _ Hi) Hidx)
    as (t & w1' & w3 & Hinit' & Hget & Hver & Hplen).
  rewrite Hinit in Hinit'. injection Hinit' as <- <-.
  set (proof := path (tree_levels_of (map txid txs)) i) in *.
  assert (Hpos : 0 < length proof).
  { unfold proof. rewrite path_length.
    destruct (tree_levels_of_two (map txid txs)) as [rest ->];
      [rewrite length_map; lia | cbn [length]; lia]. }
  pose proof (get_merkle_proof_run (mkFullNode b) (txid tx)
                (mkApp w1 (session s) (stdout s)) (Some proof) w1 Hget) as Hrun.
  exists b, (mkApp w1 (session s) (stdout s)), proof. eexists.
  split; [apply lift_done, Hb|].
  split; [exact Hrun|].
  split; [exact Hpos|]. split; [exact Hplen|].
  cbn [stdout app_world]. split.
  - destruct proof as [|e proof']; [cbn in Hpos; lia|]. reflexivity.
  - exists (client_of (merkle_tree b)), w2.
    destruct (verify_transaction_run (mkHeader (root (merkle_tree b))) (txid tx)
                proof w1) as (w4 & Hv & _).
    unfold client_of in Hver. rewrite Hver in Hv.
    destruct (verify_transaction_run (mkHeader (root (merkle_tree b))) (txid tx)
                proof w2) as (w5 & Hv2 & _).
    exists w5. split; [exact Hset|].
    unfold client_of. rewrite Hv2. congruence.
Qed.

Lemma full_node_sends_proof_witness :
  2 <= length records_abc
  /\ record "c" ∈ records_abc
  /\ exists b s1 proof s2,
       lift (Block_init records_abc) (mkApp empty_world initial_session [])
       = Done b s1
       /\ get_merkle_proof (mkFullNode b) (txid (record "c")) s1
          = Done (Some proof) s2
       /\ 0 < length proof
       /\ length proof = length (tree_levels (merkle_tree b)) - 1
       /\ stdout s2 = [] ++ [PrintRequest (substring 0 10 (txid (record "c")));
                             PrintProofFound (length proof)]
       /\ exists c w3 w4,
            set_header SPVClient_init (header b) (app_world s2) = Ok (c, w3)
            /\ verify_transaction c (txid (record "c")) (Some proof) w3
               = Ok (true, w4).
Proof.
  assert (Hlen : 2 <= length records_abc) by (cbn; lia).
  assert (Hin : record "c" ∈ records_abc)
    by (do 2 apply list_elem_of_further; apply list_elem_of_here).
  split; [exact Hlen|]. split; [exact Hin|].
  exact (full_node_sends_proof records_abc (record "c")
           (mkApp empty_world initial_session []) Hlen Hin).
Defined.

(** ** What print_merkle_tree logs *)

Lemma print_levels_lines tls levels s :
  Forall2 (fun l v => heap (app_world s) !! l = Some v) tls levels ->
  forall k a lines,
    a + k <= length tls ->
    exists lines',
      print_levels tls (length tls) (seq a k) (with_log s lines)
      = Done tt (with_log s (lines ++ lines'))
      /\ length lines'
         = sum_list_with (fun level => S (length level)) (take k (drop a levels)).
Proof.
  intros HF. induction k as [|k IH]; intros a lines Hk.
  - exists []. rewrite app_nil_r. split; reflexivity.
  - cbn [seq print_levels].
    destruct (lookup_lt_is_Some_2 tls a ltac:(lia)) as [l Hl]. rewrite Hl.
    destruct (Forall2_lookup_l _ _ _ _ _ HF Hl) as (v & Hlv & Hv).
    app_step (with_log_log _ _ _).
    set (head_line := if a =? 0 then MsgLevelLeaf a
                      else if a =? length tls - 1 then MsgLevelRoot a
                      else MsgLevelInner a).
    assert (Hread : lift (read l) (with_log s (lines ++ [head_line]))
                    = Done v (with_log s (lines ++ [head_line]))).
    { unfold lift. cbn [app_world with_log]. rewrite (read_ok _ _ _ Hv). reflexivity. }
    app_step Hread.
    destruct (print_nodes_run a v 0 s (lines ++ [head_line])) as (l1 & Hn & Hl1).
    app_step Hn.
    destruct (IH (S a) ((lines ++ [head_line]) ++ l1) ltac:(lia))
      as (l2 & -> & Hl2).
    exists (head_line :: l1 ++ l2). split.
    + rewrite <- !app_assoc. reflexivity.
    + rewrite (drop_S _ _ _ Hlv). cbn [take sum_list_with length].
      rewrite length_app, Hl1, Hl2. lia.
Qed.

Lemma print_merkle_tree_lines s fn levels :
  full_node (session s) = Some fn ->
  Forall2 (fun l v => heap (app_world s) !! l = Some v)
          (tree_levels (merkle_tree (block fn))) levels ->
  levels <> [] ->
  is_Some (root (merkle_tree (block fn))) ->
  exists lines,
    print_merkle_tree s = Done tt (with_log s lines)
    /\ length lines = 2 + sum_list_with (fun level => S (length level)) levels.
Proof.
  intros Hfn HF Hne [r Hr]. unfold print_merkle_tree.
  unfold mbind at 1, app_bind at 1. unfold get_session at 1. rewrite Hfn.
  app_step (log_message_with_log _ _).
  pose proof (Forall2_length _ _ _ HF) as Hlen.
  destruct (tree_levels (merkle_tree (block fn))) as [|l0 tls] eqn:E.
  - destruct levels; [congruence|discriminate].
  - rewrite <- E in *.
    destruct (print_levels_lines _ _ s HF (length (tree_levels (merkle_tree (block fn))))
                0 [MsgTreeStructure] ltac:(lia)) as (l1 & H1 & Hl1).
    app_step H1.
    rewrite Hr.
    unfold root_prefix. unfold mbind at 1, app_bind at 1, mret at 1, app_ret at 1.
    rewrite with_log_log. eexists. split; [reflexivity|].
    rewrite !length_app, Hl1. cbn [length drop].
    rewrite Hlen, firstn_all, drop_0. lia.
Qed.

(** X22: after a [create_block] that returned [True], [print_merkle_tree]
    returns and only adds lines to the log: the heading, the root, and for
    each level of the tree its heading and one line for each entry the level
    holds, the repeated last entry of a level of odd length included. *)
Theorem printed_tree_lines (tx_data_list : list string) (s s1 : app_state) :
  create_block tx_data_list s = Done true s1 ->
  exists lines,
    print_merkle_tree s1 = Done tt (with_log s1 lines)
    /\ length lines
       = 2 + sum_list_with (fun level => S (length level))
               (tree_levels_of (map txid (records_of tx_data_list))).
Proof.
  intros Hcb.
  destruct (create_block_done _ _ _ Hcb) as (t & w2 & lines & Hne & Hinit & ->).
  pose proof (MerkleTree_init_tree_at _ _ _ _ Hinit) as Hat.
  apply (print_merkle_tree_lines _
           (mkFullNode (mkBlock (records_of tx_data_list) t (mkHeader (root t))))).
  - reflexivity.
  - exact (at_levels _ _ _ Hat).
  - assert (Hl : map txid (records_of tx_data_list) <> [])
      by (destruct (records_of tx_data_list); [congruence|discriminate]).
    destruct (tree_levels_of_head _ Hl) as [rest ->]. discriminate.
  - exact (root_of_built _ _ _ _ Hne Hinit).
Qed.

Lemma printed_tree_lines_witness :
  exists s1,
    create_block ["Alice pays Bob"; "Carol pays David"; "Eve pays Frank"]%string
      (mkApp empty_world initial_session []) = Done true s1
    /\ exists lines,
         print_merkle_tree s1 = Done tt (with_log s1 lines)
         /\ length lines
            = 2 + sum_list_with (fun level => S (length level))
                    (tree_levels_of
                       (map txid
                          (records_of ["Alice pays Bob"; "Carol pays David";
                                       "Eve pays Frank"]%string))).
Proof.
  eexists.
  assert (Hcb : create_block
                  ["Alice pays Bob"; "Carol pays David"; "Eve pays Frank"]%string
                  (mkApp empty_world initial_session []) = Done true _)
    by (vm_compute; reflexivity).
  split; [exact Hcb|].
  exact (printed_tree_lines _ _ _ Hcb).
Defined.
